(** * Verification of the cataract-detection API client

    A shallow embedding of [services/catarata-api.ts] and the properties
    its specification states about it.

    The module is a thin HTTP client, so almost everything it does is an
    interaction with its surroundings: the file system, [fetch], the
    console and timers.  Programs are therefore written in a small monad
    [M] that threads the trace of interactions performed so far and may
    end by throwing.  The surroundings are an explicit [Env]: a
    deterministic oracle that answers every external call as a function
    of the whole interaction history. *)

From Stdlib Require Import ZArith List String Ascii Bool Lia.
From Stdlib Require Import DecimalString Floats.SpecFloat.
Import ListNotations.

Local Open Scope string_scope.
Local Open Scope list_scope.
Local Open Scope Z_scope.

(** String concatenation, the [+] of JavaScript strings and the joints of
    template literals; [++] is kept for lists. *)
Local Infix "+:+" := String.append (at level 60, right associativity).

(** ** JavaScript values that cross the module's boundary *)

(** A JavaScript [number] is an IEEE 754 binary64 value. *)
Definition number : Type := spec_float.

Definition prec : Z := 53.
Definition emax : Z := 1024.

(** What [JSON.parse] (and so [response.json()]) can produce. An object
    lists its own properties; a key occurs at most once in a parsed
    object, and [get_property] reads the first entry that carries it. *)
#[local] Set Warnings "-register-all".
Inductive JSON : Type :=
| JNull
| JBool (b : bool)
| JNumber (n : number)
| JString (s : string)
| JArray (items : list JSON)
| JObject (fields : list (string * JSON)).
#[local] Set Warnings "register-all".

(** A JavaScript value read out of parsed JSON: [None] is [undefined]. *)
Definition JsValue : Type := option JSON.

(** Values the module throws or sees thrown.  All of them are objects. *)
Inductive thrown : Type :=
| ErrorObj (name message : string)
    (* an instance of Error: [new Error(m)], TypeError, SyntaxError, ... *)
| ApiErrorObj (status : Z) (detail : JSON)
    (* the object literal [{ status, detail }] thrown by predictFromBase64 *)
| EventObj (type : string).
    (* the ProgressEvent a FileReader hands to [onerror] *)

(** Completion of a call or settlement of a promise. *)
Inductive outcome (A : Type) : Type :=
| Returns (a : A)
| Throws (e : thrown).
Arguments Returns {A} a.
Arguments Throws {A} e.

(** [String(error)], as a template literal interpolates a caught value:
    [Error.prototype.toString] for errors, [Object.prototype.toString]
    for the rest. *)
Definition toString (e : thrown) : string :=
  match e with
  | ErrorObj name message =>
      if String.eqb name "" then message
      else if String.eqb message "" then name
      else name +:+ ": " +:+ message
  | ApiErrorObj _ _ => "[object Object]"
  | EventObj _ => "[object ProgressEvent]"
  end.

(** [ToBoolean] on parsed JSON: the operand test of [||]. *)
Definition truthy (v : JsValue) : bool :=
  match v with
  | None => false
  | Some JNull => false
  | Some (JBool b) => b
  | Some (JNumber (S754_zero _)) => false
  | Some (JNumber S754_nan) => false
  | Some (JNumber _) => true
  | Some (JString s) => negb (String.eqb s "")
  | Some (JArray _) => true
  | Some (JObject _) => true
  end.

(** [a || b] with a JSON right operand. *)
Definition js_or (a : JsValue) (b : JSON) : JSON :=
  match a with
  | Some v => if truthy a then v else b
  | None => b
  end.

Fixpoint lookup_field (key : string) (fields : list (string * JSON)) : JsValue :=
  match fields with
  | [] => None
  | (k, v) :: rest => if String.eqb k key then Some v else lookup_field key rest
  end.

(** [v.key] for a key that no built-in prototype defines (the module
    reads [detail] and [prediction] only): an own property of an object,
    [undefined] on every other value, and a TypeError on [null].  The
    wording of the TypeError is the engine's (V8's is used here). *)
Definition get_property (v : JSON) (key : string) : outcome JsValue :=
  match v with
  | JNull =>
      Throws (ErrorObj "TypeError"
                ("Cannot read properties of null (reading '" +:+ key +:+ "')"))
  | JObject fields => Returns (lookup_field key fields)
  | _ => Returns None
  end.

(** ** The platform: fetch, blobs, the file system, the console *)

(** What [FileReader.readAsDataURL] ends with: [Some url] when it loads
    ([reader.result] at [onloadend]), [None] when [onerror] fires. *)
Record Blob : Type := { readAsDataURL : option string }.

(** A [Response]. Reading the body is settled with the response: [json]
    is the settlement of [response.json()], [blob] of [response.blob()]. *)
Record Response : Type := {
  status : Z;
  json : outcome JSON;
  blob : outcome Blob
}.

(** [response.ok] as the Fetch standard defines it: a status in 200..299. *)
Definition ok (r : Response) : bool :=
  (200 <=? status r) && (status r <=? 299).

(** The second argument of [fetch].  [body] is the value handed to
    [JSON.stringify]; the serialised text itself is not modelled. *)
Record RequestInit : Type := {
  method : string;
  headers : list (string * string);
  body : option JSON
}.

(** One piece of a template literal: literal text, an interpolated
    integer-valued number, or an interpolated JSON value.  The pieces are
    kept apart, so the engine's rendering of numbers is not needed. *)
Inductive piece : Type :=
| Txt (s : string)
| Num (n : Z)
| Val (v : JsValue).

Inductive log_level : Type := LogInfo | LogWarn | LogError.

Inductive log_arg : Type :=
| Template (pieces : list piece)
| Caught (e : thrown).

(** Interactions with the surroundings, in the order they happen. *)
Inductive event : Type :=
| EvConsole (level : log_level) (args : list log_arg)
    (* console.log / console.warn / console.error *)
| EvRead (uri : string) (encoding : string)
    (* FileSystem.readAsStringAsync(uri, { encoding }) *)
| EvFetch (url : string) (init : option RequestInit)
    (* fetch(url, init) *)
| EvSleep (ms : Z).
    (* await new Promise(resolve => setTimeout(resolve, ms)) *)

Definition trace : Type := list event.

(** The surroundings.  Each external call is answered from the history
    of interactions that precede it. *)
Record Env : Type := {
  EXPO_PUBLIC_API_URL : option string;
    (* process.env && process.env.EXPO_PUBLIC_API_URL *)
  Platform_OS : string;
  readAsStringAsync : trace -> string -> outcome string;
  fetch : trace -> string -> option RequestInit -> outcome Response
}.

(** ** The monad of interacting, fallible programs *)

(** A program is run after a history and yields its completion together
    with the events it added. *)
Definition M (A : Type) : Type := trace -> outcome A * trace.

Definition ret {A} (a : A) : M A := fun _ => (Returns a, []).

Definition throw {A} (e : thrown) : M A := fun _ => (Throws e, []).

Definition bind {A B} (m : M A) (k : A -> M B) : M B :=
  fun h =>
    match m h with
    | (Returns a, t1) => let (r, t2) := k a (h ++ t1) in (r, t1 ++ t2)
    | (Throws e, t1) => (Throws e, t1)
    end.

(** [try { m } catch (error) { handler error }] *)
Definition try_catch {A} (m : M A) (handler : thrown -> M A) : M A :=
  fun h =>
    match m h with
    | (Returns a, t1) => (Returns a, t1)
    | (Throws e, t1) => let (r, t2) := handler e (h ++ t1) in (r, t1 ++ t2)
    end.

(** [await p] for a promise whose settlement is known. *)
Definition await {A} (p : outcome A) : M A := fun _ => (p, []).

Definition emit (ev : event) : M unit := fun _ => (Returns tt, [ev]).

Notation "x <- m ;; k" := (bind m (fun x => k))
  (at level 61, m at next level, right associativity).
Notation "m ;;; k" := (bind m (fun _ => k))
  (at level 61, right associativity).

Definition console_log (args : list log_arg) : M unit := emit (EvConsole LogInfo args).
Definition console_warn (args : list log_arg) : M unit := emit (EvConsole LogWarn args).
Definition console_error (args : list log_arg) : M unit := emit (EvConsole LogError args).

Definition sleep (ms : Z) : M unit := emit (EvSleep ms).

Definition call_fetch (env : Env) (url : string) (init : option RequestInit) : M Response :=
  fun h => (fetch env h url init, [EvFetch url init]).

Definition call_readAsStringAsync (env : Env) (uri : string) (encoding : string) : M string :=
  fun h => (readAsStringAsync env h uri, [EvRead uri encoding]).

(** ** The module *)

(** [API_BASE_URL]: the configured URL unless it is missing or empty. *)
Definition API_BASE_URL (env : Env) : string :=
  match EXPO_PUBLIC_API_URL env with
  | Some url => if String.eqb url "" then "https://eyessistant2-backend.onrender.com" else url
  | None => "https://eyessistant2-backend.onrender.com"
  end.

(** *** Image encoder *)

Fixpoint until_comma (s : string) : string :=
  match s with
  | EmptyString => EmptyString
  | String c rest => if Ascii.eqb c "," then EmptyString else String c (until_comma rest)
  end.

(** [s.split(',')[1]]: the text between the first and the second comma,
    [undefined] when [s] has no comma. *)
Fixpoint split_comma_1 (s : string) : option string :=
  match s with
  | EmptyString => None
  | String c rest => if Ascii.eqb c "," then Some (until_comma rest) else split_comma_1 rest
  end.

(** [new Promise((resolve, reject) => { const reader = new FileReader(); ... })]:
    [onerror] rejects with its event, [onloadend] resolves with the part
    of [reader.result] after the comma. *)
Definition read_as_base64 (b : Blob) : outcome (option string) :=
  match readAsDataURL b with
  | Some result => Returns (split_comma_1 result)
  | None => Throws (EventObj "error")
  end.

(** The two branches of [imageUriToBase64Web] are the same statements. *)
Definition fetch_and_read (env : Env) (imageUri : string) : M (outcome (option string)) :=
  response <- call_fetch env imageUri None ;;
  blob <- await (blob response) ;;
  ret (read_as_base64 blob).

(** The promise built around the FileReader is returned from inside the
    [try] without being awaited, so its rejection is not seen by the
    [catch]: only the failures of [fetch] and [response.blob()] are
    wrapped here. *)
Definition imageUriToBase64Web (env : Env) (imageUri : string) : M (option string) :=
  promise <-
    try_catch
      (if prefix "blob:" imageUri || prefix "data:" imageUri
       then fetch_and_read env imageUri
       else fetch_and_read env imageUri)
      (fun error =>
         throw (ErrorObj "Error"
                  ("Erro ao converter imagem web para base64: " +:+ toString error))) ;;
  await promise.

(** The result is a string, or [undefined] ([None]) when the data URL
    read on the web has no comma. *)
Definition imageUriToBase64 (env : Env) (imageUri : string) : M (option string) :=
  try_catch
    (if String.eqb (Platform_OS env) "web"
     then imageUriToBase64Web env imageUri
     else
       base64 <- call_readAsStringAsync env imageUri "base64" ;;
       ret (Some base64))
    (fun error =>
       throw (ErrorObj "Error"
                ("Erro ao converter imagem para base64: " +:+ toString error))).

(** *** Prediction request *)

Definition predict_request (base64Image : option string) : RequestInit :=
  {| method := "POST";
     headers := [("Content-Type", "application/json")];
     body := Some (JObject match base64Image with
                           | Some image => [("image", JString image)]
                           | None => []
                           end) |}.

(** [response.json()] is typed [any] and the annotation
    [PredictionResult] on its result is not checked when the program
    runs: what is returned is the parsed body, whatever it is. *)
Definition predictFromBase64 (env : Env) (imageUri : string) : M JSON :=
  try_catch
    (base64Image <- imageUriToBase64 env imageUri ;;
     response <- call_fetch env (API_BASE_URL env +:+ "/predict-base64")
                   (Some (predict_request base64Image)) ;;
     (if negb (ok response)
      then
        error <- await (json response) ;;
        detail <- await (get_property error "detail") ;;
        throw (ApiErrorObj (status response)
                 (js_or detail (JString "Erro desconhecido na API")))
      else ret tt) ;;;
     result <- await (json response) ;;
     ret result)
    (fun error =>
       console_error [Template [Txt "Erro na predição:"]; Caught error] ;;;
       throw error).

(** *** Health check *)

Definition checkApiHealth (env : Env) : M bool :=
  try_catch
    (response <- call_fetch env (API_BASE_URL env +:+ "/health")
                   (Some {| method := "GET"; headers := []; body := None |}) ;;
     ret (ok response))
    (fun error =>
       console_warn [Template [Txt "API indisponível:"]; Caught error] ;;;
       ret false).

(** *** Retrying predictor *)

(** How one pass through the body of the [for] loop ends: by the
    [return] inside the [try], or normally, with [lastError] assigned. *)
Inductive completion : Type :=
| Return (result : JSON)
| Continue (lastError : thrown).

Definition announce (attempt maxRetries : Z) : event :=
  EvConsole LogInfo
    [Template [Txt "[Tentativa "; Num attempt; Txt "/"; Num maxRetries;
               Txt "] Enviando imagem para análise..."]].

(** [1000 * Math.pow(2, attempt - 1)].  The attempt counter and the
    delay are integer-valued numbers and are kept as integers. *)
Definition backoff (attempt : Z) : Z := 1000 * 2 ^ (attempt - 1).

Definition loop_body (env : Env) (imageUri : string) (maxRetries attempt : Z) : M completion :=
  try_catch
    (emit (announce attempt maxRetries) ;;;
     result <- predictFromBase64 env imageUri ;;
     prediction <- await (get_property result "prediction") ;;
     console_log [Template [Txt "✅ Análise concluída: "; Val prediction]] ;;;
     ret (Return result))
    (fun error =>
       console_warn [Template [Txt "Tentativa "; Num attempt; Txt " falhou:"]; Caught error] ;;;
       (if attempt <? maxRetries
        then
          let delay := backoff attempt in
          console_log [Template [Txt "⏳ Aguardando "; Num delay;
                                 Txt "ms antes de tentar novamente..."]] ;;;
          sleep delay
        else ret tt) ;;;
       ret (Continue error)).

(** The [for] loop from a given value of [attempt], and the [throw] that
    follows it.  [fuel] bounds the number of passes; [None] is returned
    when it runs out while the loop condition still holds. *)
Fixpoint retry_loop (env : Env) (imageUri : string) (maxRetries : Z)
    (fuel : nat) (attempt : Z) (lastError : option thrown) (h : trace)
  : option (outcome JSON * trace) :=
  if attempt <=? maxRetries then
    match fuel with
    | O => None
    | S fuel' =>
        match loop_body env imageUri maxRetries attempt h with
        | (Returns (Return result), t) => Some (Returns result, t)
        | (Returns (Continue error), t) =>
            match retry_loop env imageUri maxRetries fuel' (attempt + 1)
                    (Some error) (h ++ t) with
            | Some (r, t') => Some (r, t ++ t')
            | None => None
            end
        | (Throws e, t) => Some (Throws e, t)
        end
    end
  else
    Some (Throws match lastError with
                 | Some e => e   (* every thrown value is an object, hence truthy *)
                 | None => ErrorObj "Error"
                             "Falha ao enviar para análise após múltiplas tentativas"
                 end, []).

(** [maxRetries] is an integer-valued number; when the argument is left
    out it is 3.  The loop makes at most [maxRetries] passes, which is
    the fuel it is given. *)
Definition predictWithRetry (env : Env) (imageUri : string) (maxRetries : option Z)
  : trace -> option (outcome JSON * trace) :=
  let maxRetries := match maxRetries with Some n => n | None => 3 end in
  retry_loop env imageUri maxRetries (Z.to_nat maxRetries) 1 None.

(** ** Presentation helpers *)

(** The interface [PredictionResult] as the compiler sees it. *)
Inductive label : Type := normal | catarata.

Record PredictionResult : Type := {
  prediction : label;
  confidence : number;
  class_index : number;
  message : string
}.

(** The literal [100] as a binary64 value: 100 = 7036874417766400 * 2^-46. *)
Definition hundred : number := S754_finite false 7036874417766400 (-46).

(** [a * b] on numbers. *)
Definition times (a b : number) : number := SFmul prec emax a b.

Definition LF : string := String (ascii_of_nat 10) "".

(** Decimal digits of a natural number, ["0"] for zero. *)
Definition decimal (n : Z) : string :=
  DecimalString.NilZero.string_of_uint (N.to_uint (Z.to_N n)).

(** [s] preceded by zeros up to [width] characters. *)
Fixpoint pad_zeros (missing : nat) (s : string) : string :=
  match missing with
  | O => s
  | S k => String "0" (pad_zeros k s)
  end.

(** [m * 2^e >= 10^21] *)
Definition at_least_1e21 (m : positive) (e : Z) : bool :=
  if 0 <=? e then 10 ^ 21 <=? Zpos m * 2 ^ e
  else 10 ^ 21 * 2 ^ (- e) <=? Zpos m.

(** The integer [n] for which [n / scale] is nearest to [m * 2^e], the
    larger one of two equally near. *)
Definition nearest_scaled (m : positive) (e : Z) (scale : Z) : Z :=
  if 0 <=? e then Zpos m * 2 ^ e * scale
  else (2 * Zpos m * scale + 2 ^ (- e)) / (2 * 2 ^ (- e)).

(** The digits of [n] with a point before the last [f] of them. *)
Definition fixed_digits (n : Z) (f : nat) : string :=
  match f with
  | O => decimal n
  | S _ =>
      let scale := 10 ^ Z.of_nat f in
      let low := decimal (n mod scale) in
      decimal (n / scale) +:+ "." +:+ pad_zeros (f - String.length low) low
  end.

Section Presentation.

(** [Number::toString] of the engine, which [toFixed] falls back on
    for magnitudes of 10^21 and more. *)
Variable Number_toString : number -> string.

(** [x.toFixed(fractionDigits)] for [fractionDigits] from 0 to 100
    (ECMA-262, Number.prototype.toFixed). *)
Definition toFixed (x : number) (fractionDigits : nat) : string :=
  match x with
  | S754_nan => "NaN"
  | S754_infinity false => "Infinity"
  | S754_infinity true => "-Infinity"
  | S754_zero _ => fixed_digits 0 fractionDigits
  | S754_finite s m e =>
      (if s then "-" else "") +:+
      (if at_least_1e21 m e then Number_toString (S754_finite false m e)
       else fixed_digits (nearest_scaled m e (10 ^ Z.of_nat fractionDigits))
              fractionDigits)
  end.

Definition getPredictionMessage (result : PredictionResult) : string :=
  let confidence := toFixed (times (confidence result) hundred) 1 in
  match prediction result with
  | normal =>
      "✅ Nenhum sinal de catarata detectado" +:+ LF +:+
      confidence +:+ "% de confiança"
  | catarata =>
      "⚠️ Possível sinal de catarata detectado" +:+ LF +:+
      "Confidência: " +:+ confidence +:+ "%"
  end.

End Presentation.

Definition getRecommendation (result : PredictionResult)
    (t : option (string -> string)) : string :=
  match t with
  | Some t =>
      match prediction result with
      | normal => t "analise_recomendacao_normal"
      | catarata => t "analise_recomendacao_urgente"
      end
  | None =>
      match prediction result with
      | normal => "Continue monitorando regularmente seus olhos com exames periódicos."
      | catarata =>
          "Recomendamos que você consulte um oftalmologista para uma avaliação mais detalhada."
      end
  end.

(** ** Notions the specification speaks of *)

(** *** The image encoder's underlying read or fetch fails *)



(** *** The attempts of the retrying predictor *)

Definition success_log (prediction : JsValue) : event :=
  EvConsole LogInfo [Template [Txt "✅ Análise concluída: "; Val prediction]].

Definition failure_log (attempt : Z) (error : thrown) : event :=
  EvConsole LogWarn [Template [Txt "Tentativa "; Num attempt; Txt " falhou:"]; Caught error].

Definition wait_log (delay : Z) : event :=
  EvConsole LogInfo [Template [Txt "⏳ Aguardando "; Num delay;
                               Txt "ms antes de tentar novamente..."]].


(** What a failed pass through the loop body adds after the attempt. *)
Definition failure_tail (attempt maxRetries : Z) (e : thrown) : trace :=
  failure_log attempt e ::
  (if attempt <? maxRetries
   then [wait_log (backoff attempt); EvSleep (backoff attempt)]
   else []).

(** [v.key] where [v] is not [null]. *)
Definition property_of (v : JSON) (key : string) : JsValue :=
  match v with
  | JObject fields => lookup_field key fields
  | _ => None
  end.


(** The announcement that opens an attempt, and the backoff delay. *)
Definition is_announce (ev : event) : bool :=
  match ev with
  | EvConsole LogInfo [Template [Txt a; Num _; Txt b; Num _; Txt c]] =>
      String.eqb a "[Tentativa " && String.eqb b "/" &&
      String.eqb c "] Enviando imagem para análise..."
  | _ => false
  end.

Definition is_delay (ev : event) : bool :=
  match ev with
  | EvSleep _ => true
  | _ => false
  end.

(** What is left of a trace when only attempts and delays are kept. *)
Definition retry_events (t : trace) : trace :=
  filter (fun ev => is_announce ev || is_delay ev) t.

(** [count] attempts numbered from [first], with the delay the
    specification puts before attempt [N >= 2], namely [1000 * 2^(N-2)]
    milliseconds, and none after the last. *)
Fixpoint schedule (maxRetries : Z) (first : Z) (count : nat) : trace :=
  match count with
  | O => []
  | S O => [announce first maxRetries]
  | S more =>
      let N := first + 1 in
      announce first maxRetries :: EvSleep (1000 * 2 ^ (N - 2)) ::
      schedule maxRetries N more
  end.

(** *** Requests *)

Definition health_request : option RequestInit :=
  Some {| method := "GET"; headers := []; body := None |}.

Definition predict_url (env : Env) : string := API_BASE_URL env +:+ "/predict-base64".

Definition error_log (error : thrown) : event :=
  EvConsole LogError [Template [Txt "Erro na predição:"]; Caught error].

Definition fallback_detail : JSON := JString "Erro desconhecido na API".

(** The [detail] property of a parsed error body, [undefined] when the
    body has none. *)
Definition server_detail (error : JSON) : JsValue := property_of error "detail".

(** *** The shape of a PredictionResult *)

Definition zero : number := S754_zero false.
Definition one : number := S754_finite false 4503599627370496 (-52).

(** [0 <= x <= 1] *)
Definition in_unit_interval (x : number) : bool :=
  SFleb zero x && SFleb x one.

Definition is_integer (x : number) : bool :=
  match x with
  | S754_zero _ => true
  | S754_finite _ m e => if 0 <=? e then true else Zpos m mod 2 ^ (- e) =? 0
  | _ => false
  end.

(** The data model of the specification, on a value as it arrives:
    [{ prediction: 'normal' | 'catarata', confidence in [0,1],
       class_index: integer, message: string }]. *)
Definition conforms (v : JSON) : bool :=
  match v with
  | JObject fields =>
      match lookup_field "prediction" fields, lookup_field "confidence" fields,
            lookup_field "class_index" fields, lookup_field "message" fields with
      | Some (JString p), Some (JNumber c), Some (JNumber i), Some (JString _) =>
          (String.eqb p "normal" || String.eqb p "catarata") &&
          in_unit_interval c && is_integer i
      | _, _, _, _ => false
      end
  | _ => false
  end.

(** *** Presentation *)

(** A JavaScript call may pass more arguments than the function
    declares; the function does not see them. *)
Definition with_surplus_argument {A B C : Type} (f : A -> B) : A -> C -> B :=
  fun a _ => f a.

Definition contains (s part : string) : Prop :=
  exists before after, s = before +:+ part +:+ after.

Definition is_digit (c : ascii) : bool :=
  (48 <=? nat_of_ascii c)%nat && (nat_of_ascii c <=? 57)%nat.

Fixpoint all_digits (s : string) : bool :=
  match s with
  | EmptyString => true
  | String c rest => is_digit c && all_digits rest
  end.

(** Digits, a point, one digit. *)
Definition one_decimal_place (s : string) : Prop :=
  exists whole d,
    s = whole +:+ "." +:+ String d "" /\
    whole <> "" /\ all_digits whole = true /\ is_digit d = true.

(** ** Sample surroundings, on which the theorems are exercised *)

Definition eye_uri : string := "file:///data/eye.jpg".

Definition no_blob : outcome Blob :=
  Throws (ErrorObj "TypeError" "body stream already read").

(** confidence 0.8711 *)
Definition healthy_body : JSON :=
  JObject [("prediction", JString "normal");
           ("confidence", JNumber (S754_finite false 7846171270804878 (-53)));
           ("class_index", JNumber (S754_zero false));
           ("message", JString "Olho saudável")].

Definition healthy_response : Response :=
  {| status := 200; json := Returns healthy_body; blob := no_blob |}.

(** A 422 answer that carries a detail text. *)
Definition rejected_response : Response :=
  {| status := 422;
     json := Returns (JObject [("detail", JString "Imagem inválida")]);
     blob := no_blob |}.

(** A gateway's error page: status 502 and an HTML body, on which
    [response.json()] rejects with a SyntaxError. *)
Definition html_is_not_json : thrown :=
  ErrorObj "SyntaxError" "Unexpected token < in JSON at position 0".

Definition gateway_response : Response :=
  {| status := 502; json := Throws html_is_not_json; blob := no_blob |}.

(** A 2xx answer whose body is the JSON text [null]. *)
Definition null_response : Response :=
  {| status := 200; json := Returns JNull; blob := no_blob |}.

(** A 2xx answer whose confidence, 7, is outside [0,1]. *)
Definition overconfident_body : JSON :=
  JObject [("prediction", JString "normal");
           ("confidence", JNumber (S754_finite false 7881299347898368 (-50)));
           ("class_index", JNumber (S754_zero false));
           ("message", JString "ok")].

Definition overconfident_response : Response :=
  {| status := 200; json := Returns overconfident_body; blob := no_blob |}.

(** A native device whose file system yields the image and whose every
    request is answered by [response]. *)
Definition device (response : Response) : Env :=
  {| EXPO_PUBLIC_API_URL := None;
     Platform_OS := "android";
     readAsStringAsync := fun _ _ => Returns "/9j/4AAQSkZJRg==";
     fetch := fun _ _ _ => Returns response |}.

Definition network_down : thrown := ErrorObj "TypeError" "Network request failed".

(** A native device without network. *)
Definition offline_device : Env :=
  {| EXPO_PUBLIC_API_URL := None;
     Platform_OS := "android";
     readAsStringAsync := fun _ _ => Returns "/9j/4AAQSkZJRg==";
     fetch := fun _ _ _ => Throws network_down |}.

(** A native device whose first request fails and whose later requests
    are answered by [healthy_response]. *)
Definition flaky_device : Env :=
  {| EXPO_PUBLIC_API_URL := None;
     Platform_OS := "android";
     readAsStringAsync := fun _ _ => Returns "/9j/4AAQSkZJRg==";
     fetch := fun h _ _ =>
       if existsb is_delay h then Returns healthy_response else Throws network_down |}.

(** A browser in which the image cannot be fetched. *)
Definition browser_without_image : Env :=
  {| EXPO_PUBLIC_API_URL := None;
     Platform_OS := "web";
     readAsStringAsync := fun _ _ => Returns "";
     fetch := fun _ _ _ => Throws (ErrorObj "TypeError" "Failed to fetch") |}.

Definition sample_result : PredictionResult :=
  {| prediction := catarata;
     confidence := S754_finite false 7846171270804878 (-53);
     class_index := one;
     message := "Catarata detectada" |}.

Definition english (key : string) : string := "See an eye doctor.".

Definition sample_Number_toString (x : number) : string := "1e+21".

(** ** Further notions, for the properties beyond the specification *)

(** The backend the module falls back on. *)
Definition hosted_backend : string := "https://eyessistant2-backend.onrender.com".

Fixpoint has_comma (s : string) : bool :=
  match s with
  | EmptyString => false
  | String c rest => Ascii.eqb c "," || has_comma rest
  end.

Definition is_console (ev : event) : bool :=
  match ev with
  | EvConsole _ _ => true
  | _ => false
  end.

(** A request that carries options: the POST to the inference endpoint
    and the GET of the health check do, the fetch of an image does not. *)
Definition is_request (ev : event) : bool :=
  match ev with
  | EvFetch _ (Some _) => true
  | _ => false
  end.

(** The time a trace asks to wait, in milliseconds. *)
Fixpoint total_delay (t : trace) : Z :=
  match t with
  | [] => 0
  | EvSleep ms :: rest => ms + total_delay rest
  | _ :: rest => total_delay rest
  end.

(** [m <= B * 2^(-e)], that is [m * 2^e <= B], for a mantissa [m] with
    exponent [e]. *)
Definition below (B m e : Z) : Prop := 0 <= m <= B * 2 ^ (- e).

(** The platform call the encoder makes for an image. *)
Definition encoder_call (env : Env) (imageUri : string) : event :=
  if String.eqb (Platform_OS env) "web"
  then EvFetch imageUri None
  else EvRead imageUri "base64".

(** A 2xx answer whose body is not JSON. *)
Definition truncated_response : Response :=
  {| status := 200;
     json := Throws (ErrorObj "SyntaxError" "Unexpected end of JSON input");
     blob := no_blob |}.

(** A 500 answer whose body is the JSON text [null]. *)
Definition null_error_response : Response :=
  {| status := 500; json := Returns JNull; blob := no_blob |}.

Definition picked_image : string := "blob:http://localhost:8081/3f0c".

(** A browser: the picked image is a blob that reads as a PNG data URL,
    and the inference server answers [healthy_response]. *)
Definition browser : Env :=
  {| EXPO_PUBLIC_API_URL := Some "http://localhost:8000";
     Platform_OS := "web";
     readAsStringAsync := fun _ _ => Throws (ErrorObj "Error" "not available on web");
     fetch := fun _ url _ =>
       if String.eqb url picked_image
       then Returns {| status := 200;
                       json := Throws html_is_not_json;
                       blob := Returns {| readAsDataURL :=
                                 Some "data:image/png;base64,iVBORw0KGgo=" |} |}
       else Returns healthy_response |}.


(** * Properties *)

(** ** Running programs of [M] *)

Section Running.

Context {A B : Type}.

Lemma bind_returns (m : M A) (k : A -> M B) h a t1 r t2 :
  m h = (Returns a, t1) -> k a (h ++ t1) = (r, t2) ->
  bind m k h = (r, t1 ++ t2).
Proof. intros Hm Hk. unfold bind. now rewrite Hm, Hk. Qed.

Lemma bind_throws (m : M A) (k : A -> M B) h e t1 :
  m h = (Throws e, t1) -> bind m k h = (Throws e, t1).
Proof. intros Hm. unfold bind. now rewrite Hm. Qed.

Lemma try_catch_returns (m : M A) handler h a t1 :
  m h = (Returns a, t1) -> try_catch m handler h = (Returns a, t1).
Proof. intros Hm. unfold try_catch. now rewrite Hm. Qed.

Lemma try_catch_throws (m : M A) handler h e t1 r t2 :
  m h = (Throws e, t1) -> handler e (h ++ t1) = (r, t2) ->
  try_catch m handler h = (r, t1 ++ t2).
Proof. intros Hm Hh. unfold try_catch. now rewrite Hm, Hh. Qed.

End Running.

(** ** Health check *)

Lemma ok_iff_2xx (r : Response) : ok r = true <-> 200 <= status r <= 299.
Proof. unfold ok. rewrite andb_true_iff, !Z.leb_le. tauto. Qed.

(** C4. [checkApiHealth] always returns a boolean and never throws.
    When the GET request is answered, the boolean is [true] exactly when
    the status is a success status (200 to 299); when the request fails,
    the failure is logged with [console.warn] and the boolean is [false]. *)
Theorem checkApiHealth_total (env : Env) (h : trace) :
  let url := API_BASE_URL env +:+ "/health" in
  (exists b t, checkApiHealth env h = (Returns b, t)) /\
  (forall response,
      fetch env h url health_request = Returns response ->
      checkApiHealth env h = (Returns (ok response), [EvFetch url health_request]) /\
      (ok response = true <-> 200 <= status response <= 299)) /\
  (forall e,
      fetch env h url health_request = Throws e ->
      checkApiHealth env h =
        (Returns false,
         [EvFetch url health_request;
          EvConsole LogWarn [Template [Txt "API indisponível:"]; Caught e]])).
Proof.
  intro url.
  assert (Hanswered : forall response,
             fetch env h url health_request = Returns response ->
             checkApiHealth env h = (Returns (ok response), [EvFetch url health_request])).
  { intros response Hf. unfold checkApiHealth.
    apply try_catch_returns.
    change [EvFetch url health_request] with ([EvFetch url health_request] ++ []).
    eapply bind_returns.
    - unfold call_fetch. fold url. unfold health_request in Hf. now rewrite Hf.
    - reflexivity. }
  assert (Hfailed : forall e,
             fetch env h url health_request = Throws e ->
             checkApiHealth env h =
               (Returns false,
                [EvFetch url health_request;
                 EvConsole LogWarn [Template [Txt "API indisponível:"]; Caught e]])).
  { intros e Hf. unfold checkApiHealth.
    change [EvFetch url health_request;
            EvConsole LogWarn [Template [Txt "API indisponível:"]; Caught e]]
      with ([EvFetch url health_request] ++
            [EvConsole LogWarn [Template [Txt "API indisponível:"]; Caught e]]).
    eapply try_catch_throws.
    - apply bind_throws. unfold call_fetch. fold url.
      unfold health_request in Hf. now rewrite Hf.
    - reflexivity. }
  split; [| split].
  - destruct (fetch env h url health_request) as [response | e] eqn:Hf.
    + eauto.
    + eauto.
  - intros response Hf. split; [ now apply Hanswered | apply ok_iff_2xx ].
  - exact Hfailed.
Qed.

(** ** Prediction request *)

(** What [predictFromBase64] does once the image is encoded and the POST
    is answered: everything is decided by the response. *)
Lemma predictFromBase64_answered env imageUri h base64Image t1 response :
  imageUriToBase64 env imageUri h = (Returns base64Image, t1) ->
  fetch env (h ++ t1) (predict_url env) (Some (predict_request base64Image))
    = Returns response ->
  let posted := EvFetch (predict_url env) (Some (predict_request base64Image)) in
  predictFromBase64 env imageUri h =
    match
      (if ok response then json response
       else
         match json response with
         | Returns error =>
             match get_property error "detail" with
             | Returns detail =>
                 Throws (ApiErrorObj (status response) (js_or detail fallback_detail))
             | Throws e => Throws e
             end
         | Throws e => Throws e
         end)
    with
    | Returns result => (Returns result, t1 ++ [posted])
    | Throws e => (Throws e, t1 ++ [posted; error_log e])
    end.
Proof.
  intros Henc Hfetch posted. subst posted.
  unfold predictFromBase64, try_catch, bind at 1.
  rewrite Henc.
  unfold bind at 1, call_fetch. fold (predict_url env). rewrite Hfetch.
  unfold bind, await, throw, ret, console_error, emit, error_log, fallback_detail.
  destruct (ok response); simpl.
  - destruct (json response) as [result | e]; simpl;
      now rewrite ?app_nil_r, <- ?app_assoc.
  - destruct (json response) as [error | e]; simpl.
    + destruct (get_property error "detail") as [detail | e]; simpl;
        now rewrite ?app_nil_r, <- ?app_assoc.
    + now rewrite ?app_nil_r, <- ?app_assoc.
Qed.

(** C5. When the image is encoded and the POST is answered by a 2xx
    response whose body parses to [result], [predictFromBase64] returns
    [result] itself, and does nothing but the read and the request. *)
Theorem predictFromBase64_returns_body env imageUri h base64Image t1 response result :
  imageUriToBase64 env imageUri h = (Returns base64Image, t1) ->
  fetch env (h ++ t1) (predict_url env) (Some (predict_request base64Image))
    = Returns response ->
  200 <= status response <= 299 ->
  json response = Returns result ->
  predictFromBase64 env imageUri h =
    (Returns result,
     t1 ++ [EvFetch (predict_url env) (Some (predict_request base64Image))]).
Proof.
  intros Henc Hfetch Hstatus Hjson.
  rewrite (predictFromBase64_answered _ _ _ _ _ _ Henc Hfetch).
  apply ok_iff_2xx in Hstatus. now rewrite Hstatus, Hjson.
Qed.

Lemma predictFromBase64_returns_body_witness :
  predictFromBase64 (device healthy_response) eye_uri [] =
    (Returns healthy_body,
     [EvRead eye_uri "base64"] ++
     [EvFetch (predict_url (device healthy_response))
        (Some (predict_request (Some "/9j/4AAQSkZJRg==")))]).
Proof.
  apply (predictFromBase64_returns_body (device healthy_response) eye_uri []
           (Some "/9j/4AAQSkZJRg==") [EvRead eye_uri "base64"] healthy_response healthy_body).
  - reflexivity.
  - reflexivity.
  - simpl. lia.
  - reflexivity.
Defined.

Lemma not_2xx (r : Response) : ~ 200 <= status r <= 299 -> ok r = false.
Proof.
  intros H. destruct (ok r) eqn:E; [| reflexivity].
  apply ok_iff_2xx in E. contradiction.
Qed.

Lemma get_property_not_null (v : JSON) (key : string) :
  v <> JNull -> get_property v key = Returns (property_of v key).
Proof. destruct v; intros H; try reflexivity. now contradiction H. Qed.

Lemma get_detail (error : JSON) :
  error <> JNull -> get_property error "detail" = Returns (server_detail error).
Proof. apply get_property_not_null. Qed.

(** C1, as the code has it. When the POST is answered with a status
    outside 200..299 and a body that parses to JSON other than [null],
    [predictFromBase64] fails with an ApiError whose status is the
    response's status, and whose detail is the body's [detail] when that
    is truthy (a non-empty text in particular) and the fallback
    ['Erro desconhecido na API'] otherwise (no detail, or an empty one). *)
Theorem predictFromBase64_api_error env imageUri h base64Image t1 response error :
  imageUriToBase64 env imageUri h = (Returns base64Image, t1) ->
  fetch env (h ++ t1) (predict_url env) (Some (predict_request base64Image))
    = Returns response ->
  ~ 200 <= status response <= 299 ->
  json response = Returns error ->
  error <> JNull ->
  exists detail,
    predictFromBase64 env imageUri h =
      (Throws (ApiErrorObj (status response) detail),
       t1 ++ [EvFetch (predict_url env) (Some (predict_request base64Image));
              error_log (ApiErrorObj (status response) detail)]) /\
    (forall v, server_detail error = Some v -> truthy (Some v) = true -> detail = v) /\
    (forall text, server_detail error = Some (JString text) -> text <> "" ->
                  detail = JString text) /\
    (truthy (server_detail error) = false -> detail = fallback_detail) /\
    (server_detail error = None -> detail = fallback_detail).
Proof.
  intros Henc Hfetch Hstatus Hjson Hnull.
  exists (js_or (server_detail error) fallback_detail).
  split; [| repeat split].
  - rewrite (predictFromBase64_answered _ _ _ _ _ _ Henc Hfetch).
    now rewrite (not_2xx _ Hstatus), Hjson, (get_detail _ Hnull).
  - intros v Hv Ht. rewrite Hv. unfold js_or. now rewrite Ht.
  - intros text Hv Ht. rewrite Hv. unfold js_or, truthy.
    destruct (String.eqb_spec text ""); [contradiction | reflexivity].
  - intros Hf. unfold js_or. rewrite Hf. now destruct (server_detail error).
  - intros Hv. now rewrite Hv.
Qed.

Lemma predictFromBase64_api_error_witness :
  exists detail,
    predictFromBase64 (device rejected_response) eye_uri [] =
      (Throws (ApiErrorObj 422 detail),
       [EvRead eye_uri "base64"] ++
       [EvFetch (predict_url (device rejected_response))
          (Some (predict_request (Some "/9j/4AAQSkZJRg==")));
        error_log (ApiErrorObj 422 detail)]) /\
    detail = JString "Imagem inválida".
Proof.
  destruct (predictFromBase64_api_error (device rejected_response) eye_uri []
              (Some "/9j/4AAQSkZJRg==") [EvRead eye_uri "base64"] rejected_response
              (JObject [("detail", JString "Imagem inválida")]))
    as (detail & Hrun & _ & Htext & _).
  - reflexivity.
  - reflexivity.
  - simpl. lia.
  - reflexivity.
  - discriminate.
  - exists detail. split; [exact Hrun |].
    apply Htext; [reflexivity | discriminate].
Defined.

(** C1, as stated, fails: a 502 answer whose body is an HTML page is a
    non-success response, and [predictFromBase64] fails with the
    SyntaxError of [response.json()], which is no ApiError and carries
    no status. *)
Lemma predictFromBase64_api_error_counterexample :
  status gateway_response = 502 /\
  ok gateway_response = false /\
  fetch (device gateway_response) [EvRead eye_uri "base64"]
    (predict_url (device gateway_response))
    (Some (predict_request (Some "/9j/4AAQSkZJRg=="))) = Returns gateway_response /\
  fst (predictFromBase64 (device gateway_response) eye_uri []) = Throws html_is_not_json /\
  (forall code detail,
      fst (predictFromBase64 (device gateway_response) eye_uri [])
        <> Throws (ApiErrorObj code detail)).
Proof.
  repeat split; try reflexivity.
  intros code detail. vm_compute. discriminate.
Qed.

(** C10. When the POST is answered with a status outside 200..299 and
    the body does not parse, so that [response.json()] rejects with an
    error, [predictFromBase64] throws that very error: not an ApiError,
    no status, no detail. *)
Theorem predictFromBase64_unparsable_error_body
    env imageUri h base64Image t1 response name message :
  imageUriToBase64 env imageUri h = (Returns base64Image, t1) ->
  fetch env (h ++ t1) (predict_url env) (Some (predict_request base64Image))
    = Returns response ->
  ~ 200 <= status response <= 299 ->
  json response = Throws (ErrorObj name message) ->
  predictFromBase64 env imageUri h =
    (Throws (ErrorObj name message),
     t1 ++ [EvFetch (predict_url env) (Some (predict_request base64Image));
            error_log (ErrorObj name message)]) /\
  (forall code detail,
      fst (predictFromBase64 env imageUri h) <> Throws (ApiErrorObj code detail)).
Proof.
  intros Henc Hfetch Hstatus Hjson.
  assert (Hrun : predictFromBase64 env imageUri h =
                 (Throws (ErrorObj name message),
                  t1 ++ [EvFetch (predict_url env) (Some (predict_request base64Image));
                         error_log (ErrorObj name message)])).
  { rewrite (predictFromBase64_answered _ _ _ _ _ _ Henc Hfetch).
    now rewrite (not_2xx _ Hstatus), Hjson. }
  split; [exact Hrun |].
  intros code detail. rewrite Hrun. simpl. discriminate.
Qed.

Lemma predictFromBase64_unparsable_error_body_witness :
  predictFromBase64 (device gateway_response) eye_uri [] =
    (Throws (ErrorObj "SyntaxError" "Unexpected token < in JSON at position 0"),
     [EvRead eye_uri "base64"] ++
     [EvFetch (predict_url (device gateway_response))
        (Some (predict_request (Some "/9j/4AAQSkZJRg==")));
      error_log (ErrorObj "SyntaxError" "Unexpected token < in JSON at position 0")]) /\
  (forall code detail,
      fst (predictFromBase64 (device gateway_response) eye_uri [])
        <> Throws (ApiErrorObj code detail)).
Proof.
  apply (predictFromBase64_unparsable_error_body (device gateway_response) eye_uri []
           (Some "/9j/4AAQSkZJRg==") [EvRead eye_uri "base64"] gateway_response).
  - reflexivity.
  - reflexivity.
  - simpl. lia.
  - reflexivity.
Defined.

(** ** Image encoder *)









Lemma predictFromBase64_encoding_fails env imageUri h e t1 :
  imageUriToBase64 env imageUri h = (Throws e, t1) ->
  predictFromBase64 env imageUri h = (Throws e, t1 ++ [error_log e]).
Proof.
  intros Henc. unfold predictFromBase64, try_catch, bind at 1.
  now rewrite Henc.
Qed.

Lemma predictFromBase64_request_fails env imageUri h base64Image t1 e :
  imageUriToBase64 env imageUri h = (Returns base64Image, t1) ->
  fetch env (h ++ t1) (predict_url env) (Some (predict_request base64Image)) = Throws e ->
  predictFromBase64 env imageUri h =
    (Throws e,
     t1 ++ [EvFetch (predict_url env) (Some (predict_request base64Image)); error_log e]).
Proof.
  intros Henc Hfetch. unfold predictFromBase64, try_catch, bind at 1.
  rewrite Henc. unfold bind at 1, call_fetch. fold (predict_url env). rewrite Hfetch.
  simpl. now rewrite <- app_assoc.
Qed.

(** A result that [predictFromBase64] returns is the parsed body of a
    2xx answer to its POST. *)
Lemma predictFromBase64_returns_inv env imageUri h result t :
  predictFromBase64 env imageUri h = (Returns result, t) ->
  exists base64Image t1 response,
    imageUriToBase64 env imageUri h = (Returns base64Image, t1) /\
    fetch env (h ++ t1) (predict_url env) (Some (predict_request base64Image))
      = Returns response /\
    ok response = true /\
    json response = Returns result.
Proof.
  intros Hrun.
  destruct (imageUriToBase64 env imageUri h) as [[base64Image | e] t1] eqn:Henc.
  - destruct (fetch env (h ++ t1) (predict_url env) (Some (predict_request base64Image)))
      as [response | e] eqn:Hfetch.
    + rewrite (predictFromBase64_answered _ _ _ _ _ _ Henc Hfetch) in Hrun.
      exists base64Image, t1, response.
      destruct (ok response).
      * destruct (json response) as [body | e]; [| discriminate].
        injection Hrun as -> _. auto.
      * destruct (json response) as [error | e]; [| discriminate].
        destruct (get_property error "detail"); discriminate.
    + rewrite (predictFromBase64_request_fails _ _ _ _ _ _ Henc Hfetch) in Hrun.
      discriminate.
  - rewrite (predictFromBase64_encoding_fails _ _ _ _ _ Henc) in Hrun. discriminate.
Qed.

(** ** Retrying predictor *)

(** One pass through the loop body, by the outcome of its attempt. *)
Lemma loop_body_cases env imageUri maxRetries attempt h :
  loop_body env imageUri maxRetries attempt h =
    match predictFromBase64 env imageUri (h ++ [announce attempt maxRetries]) with
    | (Returns result, t) =>
        match get_property result "prediction" with
        | Returns prediction =>
            (Returns (Return result),
             announce attempt maxRetries :: t ++ [success_log prediction])
        | Throws e =>
            (Returns (Continue e),
             announce attempt maxRetries :: t ++ failure_tail attempt maxRetries e)
        end
    | (Throws e, t) =>
        (Returns (Continue e),
         announce attempt maxRetries :: t ++ failure_tail attempt maxRetries e)
    end.
Proof.
  unfold loop_body, try_catch, bind at 1, emit. cbn [app].
  unfold bind at 1.
  destruct (predictFromBase64 env imageUri (h ++ [announce attempt maxRetries]))
    as [[result | e] t].
  - unfold bind at 1, await.
    destruct (get_property result "prediction") as [prediction | e].
    + cbn. now rewrite ?app_nil_r.
    + cbn. unfold failure_tail, failure_log, wait_log.
      destruct (attempt <? maxRetries); cbn; now rewrite ?app_nil_r.
  - cbn. unfold failure_tail, failure_log, wait_log.
    destruct (attempt <? maxRetries); cbn; now rewrite ?app_nil_r.
Qed.

(** One pass always completes: it returns, or leaves an error behind. *)
Lemma loop_body_completes env imageUri maxRetries attempt h :
  exists c t, loop_body env imageUri maxRetries attempt h = (Returns c, t).
Proof.
  rewrite loop_body_cases.
  destruct (predictFromBase64 env imageUri (h ++ [announce attempt maxRetries]))
    as [[result | e] t]; [destruct (get_property result "prediction") |]; eauto.
Qed.

Lemma retry_loop_done env imageUri maxRetries fuel attempt lastError h :
  maxRetries < attempt ->
  retry_loop env imageUri maxRetries fuel attempt lastError h =
    Some (Throws match lastError with
                 | Some e => e
                 | None => ErrorObj "Error"
                             "Falha ao enviar para análise após múltiplas tentativas"
                 end, []).
Proof.
  intros Hlt. destruct fuel; simpl;
    now rewrite (proj2 (Z.leb_gt attempt maxRetries) Hlt).
Qed.

Lemma retry_loop_step env imageUri maxRetries fuel attempt lastError h :
  attempt <= maxRetries ->
  retry_loop env imageUri maxRetries (S fuel) attempt lastError h =
    match loop_body env imageUri maxRetries attempt h with
    | (Returns (Return result), t) => Some (Returns result, t)
    | (Returns (Continue error), t) =>
        match retry_loop env imageUri maxRetries fuel (attempt + 1)
                (Some error) (h ++ t) with
        | Some (r, t') => Some (r, t ++ t')
        | None => None
        end
    | (Throws e, t) => Some (Throws e, t)
    end.
Proof.
  intros Hle. simpl. now rewrite (proj2 (Z.leb_le attempt maxRetries) Hle).
Qed.

(** The fuel [predictWithRetry] gives its loop is enough: the loop ends. *)
Lemma retry_loop_total env imageUri maxRetries fuel :
  forall attempt lastError h,
    maxRetries - attempt + 1 <= Z.of_nat fuel ->
    exists r t, retry_loop env imageUri maxRetries fuel attempt lastError h = Some (r, t).
Proof.
  induction fuel as [| fuel IH]; intros attempt lastError h Hfuel.
  - rewrite retry_loop_done by lia. eauto.
  - destruct (Z_lt_le_dec maxRetries attempt) as [Hlt | Hle].
    + rewrite retry_loop_done by lia. eauto.
    + rewrite retry_loop_step by exact Hle.
      destruct (loop_body_completes env imageUri maxRetries attempt h) as (c & t & ->).
      destruct c as [result | error]; [eauto |].
      destruct (IH (attempt + 1) (Some error) (h ++ t)) as (r & t' & ->); [lia | eauto].
Qed.

Lemma predictWithRetry_total env imageUri maxRetries h :
  exists r t, predictWithRetry env imageUri maxRetries h = Some (r, t).
Proof.
  unfold predictWithRetry. apply retry_loop_total.
  destruct maxRetries as [n |]; lia.
Qed.





(** C2, as stated, fails: answered [null] with status 200, the first
    attempt of [predictFromBase64] succeeds and returns [null], yet
    [predictWithRetry] does not return it: reading [result.prediction]
    for the log throws, the attempt counts as failed, two more attempts
    are made and the TypeError is what [predictWithRetry] ends with. *)
Lemma predictWithRetry_null_counterexample :
  fst (predictFromBase64 (device null_response) eye_uri [announce 1 3]) = Returns JNull /\
  option_map fst (predictWithRetry (device null_response) eye_uri (Some 3) []) =
    Some (Throws (ErrorObj "TypeError"
                    "Cannot read properties of null (reading 'prediction')")) /\
  option_map (fun run => List.length (filter is_announce (snd run)))
    (predictWithRetry (device null_response) eye_uri (Some 3) []) = Some 3%nat.
Proof. repeat split; reflexivity. Qed.

(** *** Attempts and delays *)

Lemma imageUriToBase64_event env imageUri h :
  exists ev,
    snd (imageUriToBase64 env imageUri h) = [ev] /\
    is_announce ev = false /\ is_delay ev = false.
Proof.
  unfold imageUriToBase64, try_catch.
  destruct (String.eqb (Platform_OS env) "web").
  - unfold imageUriToBase64Web, try_catch, fetch_and_read, bind, call_fetch, await, ret,
      read_as_base64, throw.
    exists (EvFetch imageUri None).
    destruct (prefix "blob:" imageUri || prefix "data:" imageUri);
      destruct (fetch env h imageUri None) as [response | e]; cbn;
      try destruct (blob response) as [data | e]; cbn;
      try destruct (readAsDataURL data); cbn; auto.
  - unfold bind, call_readAsStringAsync, ret, throw.
    exists (EvRead imageUri "base64").
    destruct (readAsStringAsync env h imageUri); cbn; auto.
Qed.

(** An attempt neither announces an attempt nor waits. *)
Lemma predictFromBase64_quiet env imageUri h :
  retry_events (snd (predictFromBase64 env imageUri h)) = [].
Proof.
  destruct (imageUriToBase64_event env imageUri h) as (ev & Hev & Ha & Hd).
  destruct (imageUriToBase64 env imageUri h) as [[base64Image | e] t1] eqn:Henc;
    simpl in Hev; subst t1.
  - destruct (fetch env (h ++ [ev]) (predict_url env) (Some (predict_request base64Image)))
      as [response | e] eqn:Hfetch.
    + rewrite (predictFromBase64_answered _ _ _ _ _ _ Henc Hfetch).
      destruct (ok response); destruct (json response) as [v | e];
        try destruct (get_property v "detail");
        unfold retry_events; cbn; now rewrite Ha, Hd.
    + rewrite (predictFromBase64_request_fails _ _ _ _ _ _ Henc Hfetch).
      unfold retry_events; cbn. now rewrite Ha, Hd.
  - rewrite (predictFromBase64_encoding_fails _ _ _ _ _ Henc).
    unfold retry_events; cbn. now rewrite Ha, Hd.
Qed.

Lemma retry_events_app (t1 t2 : trace) :
  retry_events (t1 ++ t2) = retry_events t1 ++ retry_events t2.
Proof. apply filter_app. Qed.

Lemma retry_events_pass env imageUri maxRetries attempt h c t :
  loop_body env imageUri maxRetries attempt h = (Returns c, t) ->
  retry_events t =
    announce attempt maxRetries ::
    match c with
    | Return _ => []
    | Continue _ => if attempt <? maxRetries then [EvSleep (backoff attempt)] else []
    end.
Proof.
  rewrite loop_body_cases.
  pose proof (predictFromBase64_quiet env imageUri (h ++ [announce attempt maxRetries]))
    as Hquiet.
  destruct (predictFromBase64 env imageUri (h ++ [announce attempt maxRetries]))
    as [[result | e] t0]; simpl in Hquiet.
  - destruct (get_property result "prediction") as [prediction | e];
      intros [= <- <-];
      change (announce attempt maxRetries :: ?l)
        with ([announce attempt maxRetries] ++ l);
      rewrite !retry_events_app, Hquiet; unfold failure_tail;
      try destruct (attempt <? maxRetries); reflexivity.
  - intros [= <- <-].
    change (announce attempt maxRetries :: ?l)
      with ([announce attempt maxRetries] ++ l) at 1.
    rewrite !retry_events_app, Hquiet. unfold failure_tail.
    destruct (attempt <? maxRetries); reflexivity.
Qed.

Lemma retry_loop_schedule env imageUri maxRetries fuel :
  forall attempt lastError h r t,
    retry_loop env imageUri maxRetries fuel attempt lastError h = Some (r, t) ->
    exists count,
      Z.of_nat count <= Z.max 0 (maxRetries - attempt + 1) /\
      (attempt <= maxRetries -> (1 <= count)%nat) /\
      retry_events t = schedule maxRetries attempt count.
Proof.
  induction fuel as [| fuel IH]; intros attempt lastError h r t Hloop.
  - destruct (Z_lt_le_dec maxRetries attempt) as [Hlt | Hle].
    + rewrite retry_loop_done in Hloop by exact Hlt. injection Hloop as _ <-.
      exists 0%nat. split; [lia | split; [lia | reflexivity]].
    + simpl in Hloop. now rewrite (proj2 (Z.leb_le _ _) Hle) in Hloop.
  - destruct (Z_lt_le_dec maxRetries attempt) as [Hlt | Hle].
    + rewrite retry_loop_done in Hloop by exact Hlt. injection Hloop as _ <-.
      exists 0%nat. split; [lia | split; [lia | reflexivity]].
    + rewrite retry_loop_step in Hloop by exact Hle.
      destruct (loop_body_completes env imageUri maxRetries attempt h) as (c & t0 & Hpass).
      rewrite Hpass in Hloop.
      pose proof (retry_events_pass _ _ _ _ _ _ _ Hpass) as Hevents.
      destruct c as [result | error].
      * injection Hloop as _ <-. exists 1%nat.
        split; [lia | split; [lia | exact Hevents]].
      * destruct (retry_loop env imageUri maxRetries fuel (attempt + 1) (Some error)
                    (h ++ t0)) as [[r' t'] |] eqn:Hnext; [| discriminate].
        injection Hloop as _ <-.
        destruct (IH _ _ _ _ _ Hnext) as (count & Hbound & Hpos & Hsched).
        rewrite retry_events_app, Hevents, Hsched.
        destruct (Z.ltb_spec attempt maxRetries) as [Hlt | Hge].
        -- exists (S count). split; [lia | split; [lia |]].
           destruct count as [| count]; [specialize (Hpos ltac:(lia)); lia |].
           cbn [schedule app]. unfold backoff.
           now replace (attempt + 1 - 2) with (attempt - 1) by lia.
        -- exists 1%nat.
           assert (count = 0%nat) as -> by lia.
           split; [lia | split; [lia | reflexivity]].
Qed.

Lemma is_announce_announce attempt maxRetries :
  is_announce (announce attempt maxRetries) = true.
Proof. reflexivity. Qed.

Lemma announces_of_retry_events (t : trace) :
  filter is_announce (retry_events t) = filter is_announce t.
Proof.
  unfold retry_events. induction t as [| ev t IH]; [reflexivity |].
  cbn [filter]. destruct (is_announce ev) eqn:Ha; cbn [orb filter].
  - rewrite Ha. now f_equal.
  - destruct (is_delay ev); cbn [filter]; now rewrite ?Ha.
Qed.

Lemma announces_of_schedule maxRetries count :
  forall first,
    List.length (filter is_announce (schedule maxRetries first count)) = count.
Proof.
  induction count as [| count IH]; intros first; [reflexivity |].
  destruct count as [| count]; [reflexivity |].
  change (schedule maxRetries first (S (S count)))
    with (announce first maxRetries :: EvSleep (1000 * 2 ^ (first + 1 - 2)) ::
          schedule maxRetries (first + 1) (S count)).
  cbn [filter]. rewrite is_announce_announce. cbn [is_announce List.length].
  now rewrite IH.
Qed.


Example offline_schedule :
  option_map (fun run => retry_events (snd run))
    (predictWithRetry offline_device eye_uri None []) =
  Some [announce 1 3; EvSleep 1000; announce 2 3; EvSleep 2000; announce 3 3].
Proof. reflexivity. Qed.

(** ** The shape of what the client consumes *)

(** A result that [predictWithRetry] returns was returned by one of its
    attempts. *)
Lemma retry_loop_returns_inv env imageUri maxRetries fuel :
  forall attempt lastError h result t,
    retry_loop env imageUri maxRetries fuel attempt lastError h = Some (Returns result, t) ->
    exists h' t', predictFromBase64 env imageUri h' = (Returns result, t').
Proof.
  induction fuel as [| fuel IH]; intros attempt lastError h result t Hloop.
  - destruct (Z_lt_le_dec maxRetries attempt) as [Hlt | Hle].
    + rewrite retry_loop_done in Hloop by exact Hlt. discriminate.
    + simpl in Hloop. now rewrite (proj2 (Z.leb_le _ _) Hle) in Hloop.
  - destruct (Z_lt_le_dec maxRetries attempt) as [Hlt | Hle].
    + rewrite retry_loop_done in Hloop by exact Hlt. discriminate.
    + rewrite retry_loop_step, loop_body_cases in Hloop by exact Hle.
      destruct (predictFromBase64 env imageUri (h ++ [announce attempt maxRetries]))
        as [[result0 | e] t0] eqn:Hattempt.
      * destruct (get_property result0 "prediction") as [prediction | e].
        -- injection Hloop as <- _. eauto.
        -- match type of Hloop with
           | match ?next with _ => _ end = _ =>
               destruct next as [[r' t'] |] eqn:Hnext; [| discriminate]
           end.
           injection Hloop as -> _. eapply IH. exact Hnext.
      * match type of Hloop with
        | match ?next with _ => _ end = _ =>
            destruct next as [[r' t'] |] eqn:Hnext; [| discriminate]
        end.
        injection Hloop as -> _. eapply IH. exact Hnext.
Qed.

(** C6, as the code has it. The client does not check what it receives:
    a result it hands on is the parsed body of a 2xx answer, as it came.
    So the results of [predictFromBase64] and of [predictWithRetry] have
    the shape of the data model whenever every 2xx body of the server
    has it. *)
Theorem consumed_result_conforms env imageUri h :
  (forall h' url init response body,
      fetch env h' url init = Returns response ->
      ok response = true ->
      json response = Returns body ->
      conforms body = true) ->
  (forall result t,
      predictFromBase64 env imageUri h = (Returns result, t) ->
      conforms result = true) /\
  (forall maxRetries result t,
      predictWithRetry env imageUri maxRetries h = Some (Returns result, t) ->
      conforms result = true).
Proof.
  intros Hserver.
  assert (Hone : forall h' result t,
             predictFromBase64 env imageUri h' = (Returns result, t) ->
             conforms result = true).
  { intros h' result t Hrun.
    apply predictFromBase64_returns_inv in Hrun.
    destruct Hrun as (base64Image & t1 & response & _ & Hfetch & Hok & Hjson).
    exact (Hserver _ _ _ _ _ Hfetch Hok Hjson). }
  split.
  - apply Hone.
  - intros maxRetries result t Hrun. unfold predictWithRetry in Hrun.
    apply retry_loop_returns_inv in Hrun. destruct Hrun as (h' & t' & Hrun).
    exact (Hone _ _ _ Hrun).
Qed.

Lemma consumed_result_conforms_witness :
  (forall result t,
      predictFromBase64 (device healthy_response) eye_uri [] = (Returns result, t) ->
      conforms result = true) /\
  (forall maxRetries result t,
      predictWithRetry (device healthy_response) eye_uri maxRetries []
        = Some (Returns result, t) ->
      conforms result = true).
Proof.
  apply (consumed_result_conforms (device healthy_response) eye_uri []).
  intros h' url init response body Hfetch _ Hjson.
  simpl in Hfetch. injection Hfetch as <-.
  simpl in Hjson. injection Hjson as <-.
  reflexivity.
Defined.

(** C6, as stated, fails: the server answers 200 with a confidence of 7,
    and that is the PredictionResult the client is given, by
    [predictFromBase64] and by [predictWithRetry] alike. *)
Lemma consumed_result_counterexample :
  fst (predictFromBase64 (device overconfident_response) eye_uri [])
    = Returns overconfident_body /\
  option_map fst (predictWithRetry (device overconfident_response) eye_uri None [])
    = Some (Returns overconfident_body) /\
  conforms overconfident_body = false.
Proof. repeat split; reflexivity. Qed.

(** ** Presentation helpers *)

(** C7, as the code has it. Both helpers are functions of their
    arguments alone.  [getRecommendation] takes an optional translator:
    given one, it returns the translation of one of two keys; without
    one, a fixed Portuguese text.  [getPredictionMessage] takes no
    translator: its text is always the fixed Portuguese one, around the
    formatted confidence. *)
Theorem presentation_helpers Number_toString (result : PredictionResult) :
  (forall t,
      getRecommendation result (Some t) =
        match prediction result with
        | normal => t "analise_recomendacao_normal"
        | catarata => t "analise_recomendacao_urgente"
        end) /\
  getRecommendation result None =
    match prediction result with
    | normal => "Continue monitorando regularmente seus olhos com exames periódicos."
    | catarata =>
        "Recomendamos que você consulte um oftalmologista para uma avaliação mais detalhada."
    end /\
  getPredictionMessage Number_toString result =
    match prediction result with
    | normal =>
        "✅ Nenhum sinal de catarata detectado" +:+ LF +:+
        toFixed Number_toString (times (confidence result) hundred) 1 +:+
        "% de confiança"
    | catarata =>
        "⚠️ Possível sinal de catarata detectado" +:+ LF +:+ "Confidência: " +:+
        toFixed Number_toString (times (confidence result) hundred) 1 +:+ "%"
    end.
Proof. repeat split. Qed.

(** C7, as stated, fails for [getPredictionMessage]: it declares no
    translator, and one passed to it all the same changes nothing; the
    text stays the Portuguese one. *)
Lemma getPredictionMessage_ignores_translator :
  with_surplus_argument (getPredictionMessage sample_Number_toString)
    sample_result (Some english)
  = "⚠️ Possível sinal de catarata detectado" +:+ LF +:+ "Confidência: 87.1%" /\
  (forall t : option (string -> string),
      with_surplus_argument (getPredictionMessage sample_Number_toString) sample_result t
      = with_surplus_argument (getPredictionMessage sample_Number_toString)
          sample_result (@None (string -> string))) /\
  getRecommendation sample_result (Some english) <> getRecommendation sample_result None.
Proof.
  split; [reflexivity |]. split; [reflexivity |].
  vm_compute. discriminate.
Qed.

(** * Further properties of the module *)

(** ** The base URL *)

(** X1. The base URL is never empty: it is the configured URL when one is
    configured and not empty, and the hosted backend otherwise. *)
Theorem API_BASE_URL_configured_or_hosted (env : Env) :
  API_BASE_URL env <> "" /\
  (forall url, EXPO_PUBLIC_API_URL env = Some url -> url <> "" -> API_BASE_URL env = url) /\
  (EXPO_PUBLIC_API_URL env = None \/ EXPO_PUBLIC_API_URL env = Some "" ->
   API_BASE_URL env = hosted_backend).
Proof.
  unfold API_BASE_URL, hosted_backend.
  destruct (EXPO_PUBLIC_API_URL env) as [url |].
  - destruct (String.eqb_spec url "") as [-> | Hne].
    + split; [discriminate |]. split; [| reflexivity].
      intros url [= <-] Hurl. now contradiction Hurl.
    + split; [exact Hne |]. split.
      * now intros url' [= <-] _.
      * intros [Hnone | [= Hempty]]; [discriminate | now contradiction Hne].
  - split; [discriminate |]. split; [discriminate | reflexivity].
Qed.

(** ** The encoder when it succeeds *)

(** X2. On a native platform the encoder hands on what the file system
    read, unchanged, and does nothing but that one read. *)
Theorem imageUriToBase64_native_reads env imageUri h base64 :
  String.eqb (Platform_OS env) "web" = false ->
  readAsStringAsync env h imageUri = Returns base64 ->
  imageUriToBase64 env imageUri h = (Returns (Some base64), [EvRead imageUri "base64"]).
Proof.
  intros Hos Hread.
  unfold imageUriToBase64, try_catch, bind, call_readAsStringAsync, ret.
  now rewrite Hos, Hread.
Qed.

Lemma imageUriToBase64_native_reads_witness :
  imageUriToBase64 (device healthy_response) eye_uri [] =
    (Returns (Some "/9j/4AAQSkZJRg=="), [EvRead eye_uri "base64"]).
Proof.
  apply (imageUriToBase64_native_reads (device healthy_response) eye_uri []).
  - reflexivity.
  - reflexivity.
Defined.

Lemma until_comma_without_comma (s : string) :
  has_comma s = false -> until_comma s = s.
Proof.
  induction s as [| c s IH]; [reflexivity |]. cbn [has_comma until_comma].
  intros H. apply orb_false_iff in H. destruct H as [Hc Hs].
  rewrite Hc. now rewrite IH.
Qed.

Lemma split_comma_1_after_header (header rest : string) :
  has_comma header = false ->
  split_comma_1 (header +:+ "," +:+ rest) = Some (until_comma rest).
Proof.
  induction header as [| c header IH]; [reflexivity |].
  cbn [has_comma String.append split_comma_1].
  intros H. apply orb_false_iff in H. destruct H as [Hc Hs].
  rewrite Hc. now apply IH.
Qed.

(** X3. On the web the encoder fetches the image, reads it as a data URL
    and hands on what follows the comma: of
    [data:image/png;base64,<payload>], the payload. *)
Theorem imageUriToBase64_web_strips_header
    env imageUri h response data header payload :
  String.eqb (Platform_OS env) "web" = true ->
  fetch env h imageUri None = Returns response ->
  blob response = Returns data ->
  readAsDataURL data = Some (header +:+ "," +:+ payload) ->
  has_comma header = false ->
  has_comma payload = false ->
  imageUriToBase64 env imageUri h = (Returns (Some payload), [EvFetch imageUri None]).
Proof.
  intros Hos Hfetch Hblob Hread Hheader Hpayload.
  unfold imageUriToBase64, try_catch. rewrite Hos.
  unfold imageUriToBase64Web, try_catch, fetch_and_read, bind, call_fetch, await, ret,
    read_as_base64.
  destruct (prefix "blob:" imageUri || prefix "data:" imageUri);
    rewrite Hfetch, Hblob, Hread, (split_comma_1_after_header _ _ Hheader),
      (until_comma_without_comma _ Hpayload);
    reflexivity.
Qed.

Lemma imageUriToBase64_web_strips_header_witness :
  imageUriToBase64 browser picked_image [] =
    (Returns (Some "iVBORw0KGgo="), [EvFetch picked_image None]).
Proof.
  apply (imageUriToBase64_web_strips_header browser picked_image []
           {| status := 200;
              json := Throws html_is_not_json;
              blob := Returns {| readAsDataURL :=
                        Some "data:image/png;base64,iVBORw0KGgo=" |} |}
           {| readAsDataURL := Some "data:image/png;base64,iVBORw0KGgo=" |}
           "data:image/png;base64" "iVBORw0KGgo=").
  - reflexivity.
  - reflexivity.
  - reflexivity.
  - reflexivity.
  - reflexivity.
  - reflexivity.
Defined.

(** ** The encoder when it fails *)



Lemma imageUriToBase64_trace env imageUri h :
  snd (imageUriToBase64 env imageUri h) = [encoder_call env imageUri].
Proof.
  unfold imageUriToBase64, try_catch, encoder_call.
  destruct (String.eqb (Platform_OS env) "web").
  - unfold imageUriToBase64Web, try_catch, fetch_and_read, bind, call_fetch, await, ret,
      read_as_base64, throw.
    destruct (prefix "blob:" imageUri || prefix "data:" imageUri);
      destruct (fetch env h imageUri None) as [response | e]; cbn;
      try destruct (blob response) as [data | e]; cbn;
      try destruct (readAsDataURL data); reflexivity.
  - unfold bind, call_readAsStringAsync, ret, throw.
    destruct (readAsStringAsync env h imageUri); reflexivity.
Qed.

Lemma encoder_call_is_plain env imageUri :
  is_console (encoder_call env imageUri) = false /\
  is_request (encoder_call env imageUri) = false /\
  is_announce (encoder_call env imageUri) = false /\
  is_delay (encoder_call env imageUri) = false.
Proof. unfold encoder_call. now destruct (String.eqb (Platform_OS env) "web"). Qed.


(** ** The prediction request, step by step *)

(** Every run of [predictFromBase64] is the encoder's call, then at most
    one POST, then, on failure only, the error log. *)
Lemma predictFromBase64_trace_cases env imageUri h :
  match predictFromBase64 env imageUri h with
  | (Returns _, t) =>
      exists base64Image,
        t = [encoder_call env imageUri;
             EvFetch (predict_url env) (Some (predict_request base64Image))]
  | (Throws e, t) =>
      t = [encoder_call env imageUri; error_log e] \/
      exists base64Image,
        t = [encoder_call env imageUri;
             EvFetch (predict_url env) (Some (predict_request base64Image));
             error_log e]
  end.
Proof.
  pose proof (imageUriToBase64_trace env imageUri h) as Htrace.
  destruct (imageUriToBase64 env imageUri h) as [[base64Image | e] t1] eqn:Henc;
    cbn [snd] in Htrace; subst t1.
  - destruct (fetch env (h ++ [encoder_call env imageUri]) (predict_url env)
                (Some (predict_request base64Image))) as [response | e] eqn:Hfetch.
    + rewrite (predictFromBase64_answered _ _ _ _ _ _ Henc Hfetch).
      destruct (ok response); destruct (json response) as [v | e];
        try destruct (get_property v "detail"); cbn [app]; eauto.
    + rewrite (predictFromBase64_request_fails _ _ _ _ _ _ Henc Hfetch). cbn [app]. eauto.
  - rewrite (predictFromBase64_encoding_fails _ _ _ _ _ Henc). cbn [app]. auto.
Qed.

(** X7. When the image cannot be encoded, [predictFromBase64] rethrows the
    encoder's error after logging it, and sends nothing to the
    inference endpoint. *)
Theorem predictFromBase64_without_image env imageUri h e t1 :
  imageUriToBase64 env imageUri h = (Throws e, t1) ->
  predictFromBase64 env imageUri h = (Throws e, t1 ++ [error_log e]) /\
  filter is_request (snd (predictFromBase64 env imageUri h)) = [].
Proof.
  intros Henc.
  pose proof (imageUriToBase64_trace env imageUri h) as Htrace.
  rewrite Henc in Htrace. cbn [snd] in Htrace.
  rewrite (predictFromBase64_encoding_fails _ _ _ _ _ Henc).
  split; [reflexivity |]. subst t1. cbn [snd app filter].
  destruct (encoder_call_is_plain env imageUri) as (_ & -> & _). reflexivity.
Qed.

Lemma predictFromBase64_without_image_witness :
  predictFromBase64 browser_without_image picked_image [] =
    (Throws (ErrorObj "Error"
               ("Erro ao converter imagem para base64: " +:+
                "Error: Erro ao converter imagem web para base64: " +:+
                "TypeError: Failed to fetch")),
     [EvFetch picked_image None] ++
     [error_log (ErrorObj "Error"
                   ("Erro ao converter imagem para base64: " +:+
                    "Error: Erro ao converter imagem web para base64: " +:+
                    "TypeError: Failed to fetch"))]) /\
  filter is_request (snd (predictFromBase64 browser_without_image picked_image [])) = [].
Proof.
  apply (predictFromBase64_without_image browser_without_image picked_image []).
  reflexivity.
Defined.

(** X8. When the POST itself fails (no network, refused connection),
    [predictFromBase64] throws what [fetch] rejected with, as it is,
    after logging it. *)
Theorem predictFromBase64_network_failure env imageUri h base64Image t1 e :
  imageUriToBase64 env imageUri h = (Returns base64Image, t1) ->
  fetch env (h ++ t1) (predict_url env) (Some (predict_request base64Image)) = Throws e ->
  predictFromBase64 env imageUri h =
    (Throws e,
     t1 ++ [EvFetch (predict_url env) (Some (predict_request base64Image)); error_log e]).
Proof. apply predictFromBase64_request_fails. Qed.

Lemma predictFromBase64_network_failure_witness :
  predictFromBase64 offline_device eye_uri [] =
    (Throws network_down,
     [EvRead eye_uri "base64"] ++
     [EvFetch (predict_url offline_device) (Some (predict_request (Some "/9j/4AAQSkZJRg==")));
      error_log network_down]).
Proof.
  apply (predictFromBase64_network_failure offline_device eye_uri []
           (Some "/9j/4AAQSkZJRg==") [EvRead eye_uri "base64"] network_down).
  - reflexivity.
  - reflexivity.
Defined.


(** X10. A 2xx answer whose body does not parse makes [predictFromBase64]
    fail with the error of [response.json()]. *)
Theorem predictFromBase64_unparsable_success_body
    env imageUri h base64Image t1 response e :
  imageUriToBase64 env imageUri h = (Returns base64Image, t1) ->
  fetch env (h ++ t1) (predict_url env) (Some (predict_request base64Image))
    = Returns response ->
  200 <= status response <= 299 ->
  json response = Throws e ->
  predictFromBase64 env imageUri h =
    (Throws e,
     t1 ++ [EvFetch (predict_url env) (Some (predict_request base64Image)); error_log e]).
Proof.
  intros Henc Hfetch Hstatus Hjson.
  rewrite (predictFromBase64_answered _ _ _ _ _ _ Henc Hfetch).
  apply ok_iff_2xx in Hstatus. now rewrite Hstatus, Hjson.
Qed.

Lemma predictFromBase64_unparsable_success_body_witness :
  predictFromBase64 (device truncated_response) eye_uri [] =
    (Throws (ErrorObj "SyntaxError" "Unexpected end of JSON input"),
     [EvRead eye_uri "base64"] ++
     [EvFetch (predict_url (device truncated_response))
        (Some (predict_request (Some "/9j/4AAQSkZJRg==")));
      error_log (ErrorObj "SyntaxError" "Unexpected end of JSON input")]).
Proof.
  apply (predictFromBase64_unparsable_success_body (device truncated_response) eye_uri []
           (Some "/9j/4AAQSkZJRg==") [EvRead eye_uri "base64"] truncated_response).
  - reflexivity.
  - reflexivity.
  - simpl. lia.
  - reflexivity.
Defined.

(** X11. An error answer whose body is the JSON [null] makes
    [predictFromBase64] fail with a TypeError, raised by reading
    [error.detail]: no ApiError is built and the status is lost. *)
Theorem predictFromBase64_null_error_body env imageUri h base64Image t1 response :
  imageUriToBase64 env imageUri h = (Returns base64Image, t1) ->
  fetch env (h ++ t1) (predict_url env) (Some (predict_request base64Image))
    = Returns response ->
  ~ 200 <= status response <= 299 ->
  json response = Returns JNull ->
  exists message,
    predictFromBase64 env imageUri h =
      (Throws (ErrorObj "TypeError" message),
       t1 ++ [EvFetch (predict_url env) (Some (predict_request base64Image));
              error_log (ErrorObj "TypeError" message)]).
Proof.
  intros Henc Hfetch Hstatus Hjson.
  rewrite (predictFromBase64_answered _ _ _ _ _ _ Henc Hfetch).
  rewrite (not_2xx _ Hstatus), Hjson. cbn [get_property]. eauto.
Qed.

Lemma predictFromBase64_null_error_body_witness :
  exists message,
    predictFromBase64 (device null_error_response) eye_uri [] =
      (Throws (ErrorObj "TypeError" message),
       [EvRead eye_uri "base64"] ++
       [EvFetch (predict_url (device null_error_response))
          (Some (predict_request (Some "/9j/4AAQSkZJRg==")));
        error_log (ErrorObj "TypeError" message)]).
Proof.
  apply (predictFromBase64_null_error_body (device null_error_response) eye_uri []
           (Some "/9j/4AAQSkZJRg==") [EvRead eye_uri "base64"] null_error_response).
  - reflexivity.
  - reflexivity.
  - simpl. lia.
  - reflexivity.
Defined.

(** ** The retrying predictor, further *)

(** X14. With a maximum of zero or less no attempt is made: nothing is
    requested, logged or awaited, and the call fails with the module's
    own error. *)
Theorem predictWithRetry_without_attempts env imageUri maxRetries h :
  maxRetries <= 0 ->
  predictWithRetry env imageUri (Some maxRetries) h =
    Some (Throws (ErrorObj "Error"
                    "Falha ao enviar para análise após múltiplas tentativas"),
          []).
Proof.
  intros Hmax. unfold predictWithRetry. now rewrite retry_loop_done by lia.
Qed.

Lemma predictWithRetry_without_attempts_witness :
  predictWithRetry (device healthy_response) eye_uri (Some 0) [] =
    Some (Throws (ErrorObj "Error"
                    "Falha ao enviar para análise após múltiplas tentativas"),
          []).
Proof.
  apply (predictWithRetry_without_attempts (device healthy_response) eye_uri 0 []).
  lia.
Defined.




Example offline_total_delay :
  option_map (fun run => total_delay (snd run))
    (predictWithRetry offline_device eye_uri None []) = Some 3000.
Proof. reflexivity. Qed.

Lemma retry_loop_returns_answer env imageUri maxRetries fuel :
  forall attempt lastError h result t,
    retry_loop env imageUri maxRetries fuel attempt lastError h = Some (Returns result, t) ->
    result <> JNull /\
    exists h' t', predictFromBase64 env imageUri h' = (Returns result, t').
Proof.
  induction fuel as [| fuel IH]; intros attempt lastError h result t Hloop.
  - destruct (Z_lt_le_dec maxRetries attempt) as [Hlt | Hle].
    + rewrite retry_loop_done in Hloop by exact Hlt. discriminate.
    + simpl in Hloop. now rewrite (proj2 (Z.leb_le _ _) Hle) in Hloop.
  - destruct (Z_lt_le_dec maxRetries attempt) as [Hlt | Hle].
    + rewrite retry_loop_done in Hloop by exact Hlt. discriminate.
    + rewrite retry_loop_step, loop_body_cases in Hloop by exact Hle.
      destruct (predictFromBase64 env imageUri (h ++ [announce attempt maxRetries]))
        as [[result0 | e] t0] eqn:Hattempt.
      * destruct (get_property result0 "prediction") as [prediction | e] eqn:Hget.
        -- injection Hloop as <- _. split; [| eauto].
           intros ->. discriminate Hget.
        -- match type of Hloop with
           | match ?next with _ => _ end = _ =>
               destruct next as [[r' t'] |] eqn:Hnext; [| discriminate]
           end.
           injection Hloop as -> _. eapply IH. exact Hnext.
      * match type of Hloop with
        | match ?next with _ => _ end = _ =>
            destruct next as [[r' t'] |] eqn:Hnext; [| discriminate]
        end.
        injection Hloop as -> _. eapply IH. exact Hnext.
Qed.

(** X18. What [predictWithRetry] returns is never [null]: it is the parsed
    body of a 2xx answer that one of its attempts received. *)
Theorem predictWithRetry_returns_an_answer env imageUri maxRetries h result t :
  predictWithRetry env imageUri maxRetries h = Some (Returns result, t) ->
  result <> JNull /\
  exists h' base64Image response,
    fetch env h' (predict_url env) (Some (predict_request base64Image)) = Returns response /\
    200 <= status response <= 299 /\
    json response = Returns result.
Proof.
  intros Hrun. unfold predictWithRetry in Hrun.
  apply retry_loop_returns_answer in Hrun. destruct Hrun as (Hnull & h' & t' & Hrun).
  split; [exact Hnull |].
  apply predictFromBase64_returns_inv in Hrun.
  destruct Hrun as (base64Image & t1 & response & _ & Hfetch & Hok & Hjson).
  exists (h' ++ t1), base64Image, response.
  split; [exact Hfetch |]. split; [now apply ok_iff_2xx | exact Hjson].
Qed.

Lemma predictWithRetry_returns_an_answer_witness :
  healthy_body <> JNull /\
  exists h' base64Image response,
    fetch flaky_device h' (predict_url flaky_device) (Some (predict_request base64Image))
      = Returns response /\
    200 <= status response <= 299 /\
    json response = Returns healthy_body.
Proof.
  apply (predictWithRetry_returns_an_answer flaky_device eye_uri None [] healthy_body
           (snd (match predictWithRetry flaky_device eye_uri None [] with
                 | Some run => run
                 | None => (Returns JNull, [])
                 end))).
  reflexivity.
Defined.

Lemma requests_of_pass env imageUri maxRetries attempt h c t :
  loop_body env imageUri maxRetries attempt h = (Returns c, t) ->
  (List.length (filter is_request t) <= 1)%nat.
Proof.
  rewrite loop_body_cases.
  pose proof (predictFromBase64_trace_cases env imageUri
                (h ++ [announce attempt maxRetries])) as Hcases.
  destruct (encoder_call_is_plain env imageUri) as (_ & Hr & _).
  assert (Htail : forall e, filter is_request (failure_tail attempt maxRetries e) = []).
  { intros e. unfold failure_tail. now destruct (attempt <? maxRetries). }
  destruct (predictFromBase64 env imageUri (h ++ [announce attempt maxRetries]))
    as [[result | e] t0].
  - destruct Hcases as (base64Image & ->).
    destruct (get_property result "prediction") as [prediction | e];
      intros [= <- <-]; cbn [filter app is_request announce]; rewrite Hr;
      cbn [filter app is_request success_log List.length]; rewrite ?Htail; cbn; lia.
  - intros [= <- <-].
    destruct Hcases as [-> | (base64Image & ->)];
      cbn [filter app is_request announce]; rewrite Hr;
      cbn [filter app is_request error_log List.length]; rewrite ?Htail; cbn; lia.
Qed.

Lemma announces_of_pass env imageUri maxRetries attempt h c t :
  loop_body env imageUri maxRetries attempt h = (Returns c, t) ->
  List.length (filter is_announce t) = 1%nat.
Proof.
  intros Hpass. rewrite <- announces_of_retry_events.
  rewrite (retry_events_pass _ _ _ _ _ _ _ Hpass).
  cbn [filter]. rewrite is_announce_announce.
  destruct c; [reflexivity |]. now destruct (attempt <? maxRetries).
Qed.

Lemma retry_loop_requests env imageUri maxRetries fuel :
  forall attempt lastError h r t,
    retry_loop env imageUri maxRetries fuel attempt lastError h = Some (r, t) ->
    (List.length (filter is_request t) <= List.length (filter is_announce t))%nat.
Proof.
  induction fuel as [| fuel IH]; intros attempt lastError h r t Hloop.
  - destruct (Z_lt_le_dec maxRetries attempt) as [Hlt | Hle].
    + rewrite retry_loop_done in Hloop by exact Hlt. injection Hloop as _ <-. cbn. lia.
    + simpl in Hloop. now rewrite (proj2 (Z.leb_le _ _) Hle) in Hloop.
  - destruct (Z_lt_le_dec maxRetries attempt) as [Hlt | Hle].
    + rewrite retry_loop_done in Hloop by exact Hlt. injection Hloop as _ <-. cbn. lia.
    + rewrite retry_loop_step in Hloop by exact Hle.
      destruct (loop_body_completes env imageUri maxRetries attempt h) as (c & t0 & Hpass).
      rewrite Hpass in Hloop.
      pose proof (requests_of_pass _ _ _ _ _ _ _ Hpass) as Hrequests.
      pose proof (announces_of_pass _ _ _ _ _ _ _ Hpass) as Hannounces.
      destruct c as [result | error].
      * injection Hloop as _ <-. lia.
      * destruct (retry_loop env imageUri maxRetries fuel (attempt + 1) (Some error)
                    (h ++ t0)) as [[r' t'] |] eqn:Hnext; [| discriminate].
        injection Hloop as _ <-.
        specialize (IH _ _ _ _ _ Hnext).
        rewrite !filter_app, !length_app. lia.
Qed.

(** X19. Each attempt sends at most one request, so a run of
    [predictWithRetry] sends no more requests than it makes attempts,
    and no more than the configured maximum. *)
Theorem predictWithRetry_bounded_requests env imageUri maxRetries h :
  let configured := match maxRetries with Some n => n | None => 3 end in
  exists r t,
    predictWithRetry env imageUri maxRetries h = Some (r, t) /\
    (List.length (filter is_request t) <= List.length (filter is_announce t))%nat /\
    (List.length (filter is_request t) <= Z.to_nat configured)%nat.
Proof.
  intro configured.
  destruct (predictWithRetry_total env imageUri maxRetries h) as (r & t & Hrun).
  exists r, t. split; [exact Hrun |].
  pose proof Hrun as Hloop. unfold predictWithRetry in Hloop.
  pose proof (retry_loop_requests _ _ _ _ _ _ _ _ _ Hloop) as Hrequests.
  apply retry_loop_schedule in Hloop.
  destruct Hloop as (count & Hbound & _ & Hsched). fold configured in Hbound, Hsched.
  split; [exact Hrequests |].
  rewrite <- announces_of_retry_events, Hsched, announces_of_schedule in Hrequests.
  lia.
Qed.
(** ** Rounding of binary64 products *)

Lemma digits2_pos_bounds (p : positive) :
  2 ^ (Zpos (digits2_pos p) - 1) <= Zpos p < 2 ^ Zpos (digits2_pos p).
Proof.
  induction p as [p IH | p IH |]; cbn [digits2_pos].
  - rewrite Pos2Z.inj_succ, Z.pow_succ_r by lia.
    replace (Z.succ (Zpos (digits2_pos p)) - 1)
      with (Z.succ (Zpos (digits2_pos p) - 1)) by lia.
    rewrite Z.pow_succ_r by lia. lia.
  - rewrite Pos2Z.inj_succ, Z.pow_succ_r by lia.
    replace (Z.succ (Zpos (digits2_pos p)) - 1)
      with (Z.succ (Zpos (digits2_pos p) - 1)) by lia.
    rewrite Z.pow_succ_r by lia. lia.
  - cbn. lia.
Qed.

(** A mantissa below [2^k] has at most [k] binary digits. *)
Lemma Zdigits2_le (m k : Z) : 0 <= m < 2 ^ k -> 0 <= k -> Zdigits2 m <= k.
Proof.
  intros [Hm Hlt] Hk. destruct m as [| p | p]; [exact Hk | | lia].
  cbn [Zdigits2].
  pose proof (digits2_pos_bounds p) as [Hlow _].
  apply Z.nlt_ge. intros Hgt.
  assert (2 ^ k <= 2 ^ (Zpos (digits2_pos p) - 1)) by (apply Z.pow_le_mono_r; lia).
  lia.
Qed.

Lemma shr_1_half (mrs : shr_record) :
  0 <= shr_m mrs -> shr_m (shr_1 mrs) = shr_m mrs / 2.
Proof.
  destruct mrs as [m r s]. cbn [shr_m]. intros Hm.
  destruct m as [| [p | p |] | p]; cbn [shr_1 shr_m]; try reflexivity; try lia.
  - rewrite Pos2Z.inj_xI. apply Z.div_unique with (r := 1); lia.
  - rewrite Pos2Z.inj_xO. apply Z.div_unique with (r := 0); lia.
Qed.

Lemma iter_shr_1 (p : positive) :
  forall mrs, 0 <= shr_m mrs ->
    shr_m (iter_pos shr_1 p mrs) = shr_m mrs / 2 ^ Zpos p.
Proof.
  induction p as [p IH | p IH |]; intros mrs Hm; cbn [iter_pos].
  - assert (H1 : 0 <= shr_m (shr_1 mrs))
      by (rewrite shr_1_half by exact Hm; apply Z.div_pos; lia).
    assert (H2 : 0 <= shr_m (iter_pos shr_1 p (shr_1 mrs)))
      by (rewrite IH by exact H1; apply Z.div_pos; [exact H1 | apply Z.pow_pos_nonneg; lia]).
    rewrite IH by exact H2. rewrite IH by exact H1. rewrite shr_1_half by exact Hm.
    assert (Hpow : 0 < 2 ^ Zpos p) by (apply Z.pow_pos_nonneg; lia).
    rewrite !Z.div_div by lia.
    f_equal.
    assert (Zpos p~1 = 1 + (Zpos p + Zpos p)) as -> by lia.
    rewrite !Z.pow_add_r by lia. reflexivity.
  - assert (H2 : 0 <= shr_m (iter_pos shr_1 p mrs))
      by (rewrite IH by exact Hm; apply Z.div_pos; [exact Hm | apply Z.pow_pos_nonneg; lia]).
    rewrite IH by exact H2. rewrite IH by exact Hm.
    assert (Hpow : 0 < 2 ^ Zpos p) by (apply Z.pow_pos_nonneg; lia).
    rewrite !Z.div_div by lia.
    f_equal.
    assert (Zpos p~0 = Zpos p + Zpos p) as -> by lia.
    rewrite Z.pow_add_r by lia. reflexivity.
  - rewrite shr_1_half by exact Hm. reflexivity.
Qed.

(** Shifting a mantissa to its canonical exponent keeps a value that is
    at most [B < 128] at most [B], and its exponent at most -46. *)
Lemma shr_fexp_below (B m e : Z) (l : location) :
  0 <= B < 128 -> e <= -46 -> below B m e ->
  e <= snd (shr_fexp prec emax m e l) <= -46 /\
  below B (shr_m (fst (shr_fexp prec emax m e l))) (snd (shr_fexp prec emax m e l)).
Proof.
  intros HB He [Hm Hle]. unfold shr_fexp, shr.
  assert (Hpow : 0 < 2 ^ (- e)) by (apply Z.pow_pos_nonneg; lia).
  assert (Hdigits : Zdigits2 m <= 7 - e).
  { apply Zdigits2_le; [| lia]. split; [exact Hm |].
    replace (7 - e) with (7 + - e) by lia. rewrite Z.pow_add_r by lia.
    change (2 ^ 7) with 128. nia. }
  assert (Hsame : shr_m (shr_record_of_loc m l) = m) by (now destruct l as [| []]).
  destruct (fexp prec emax (Zdigits2 m + e) - e) as [| p | p] eqn:Hshift;
    cbn [fst snd].
  - rewrite Hsame. unfold below. lia.
  - unfold fexp, emin, prec, emax in Hshift.
    rewrite iter_shr_1 by (rewrite Hsame; exact Hm). rewrite Hsame.
    split; [lia |]. unfold below.
    assert (Hp : 0 < 2 ^ Zpos p) by (apply Z.pow_pos_nonneg; lia).
    split; [apply Z.div_pos; lia |].
    apply Z.div_le_upper_bound; [exact Hp |].
    replace (- e) with (Zpos p + - (e + Zpos p)) in Hle by lia.
    rewrite Z.pow_add_r in Hle by lia. lia.
  - rewrite Hsame. unfold below. lia.
Qed.

Lemma round_nearest_even_bounds (m : Z) (l : location) :
  m <= round_nearest_even m l <= m + 1.
Proof.
  destruct l as [| []]; cbn [round_nearest_even]; try lia.
  destruct (Z.even m); lia.
Qed.

(** Rounding a value that is at most [B] gives zero or a finite number
    that is at most [B + 1]: no overflow. *)
Lemma binary_round_aux_below (B mx ex : Z) :
  0 <= B < 127 -> ex <= -46 -> below B mx ex ->
  binary_round_aux prec emax false mx ex loc_Exact = S754_zero false \/
  exists m e,
    binary_round_aux prec emax false mx ex loc_Exact = S754_finite false m e /\
    e <= -46 /\ below (B + 1) (Zpos m) e.
Proof.
  intros HB Hex Hbelow. unfold binary_round_aux.
  pose proof (shr_fexp_below B mx ex loc_Exact ltac:(lia) Hex Hbelow) as [He' Hm1].
  destruct (shr_fexp prec emax mx ex loc_Exact) as [mrs' e']. cbn [fst snd] in He', Hm1.
  set (m2 := round_nearest_even (shr_m mrs') (loc_of_shr_record mrs')).
  assert (Hm2 : below (B + 1) m2 e').
  { pose proof (round_nearest_even_bounds (shr_m mrs') (loc_of_shr_record mrs')) as Hr.
    fold m2 in Hr. destruct Hm1 as [Hpos Hle].
    assert (0 < 2 ^ (- e')) by (apply Z.pow_pos_nonneg; lia).
    unfold below. nia. }
  pose proof (shr_fexp_below (B + 1) m2 e' loc_Exact ltac:(lia) ltac:(lia) Hm2)
    as [He'' Hm3].
  destruct (shr_fexp prec emax m2 e' loc_Exact) as [mrs'' e''].
  cbn [fst snd] in He'', Hm3.
  destruct (shr_m mrs'') as [| m | m] eqn:Hm.
  - now left.
  - right. exists m, e''.
    replace (e'' <=? emax - prec) with true
      by (symmetry; apply Z.leb_le; unfold emax, prec; lia).
    repeat split; try lia; apply Hm3.
  - destruct Hm3 as [Hneg _]. lia.
Qed.

(** A binary64 value in [0, 1] is a zero or [m * 2^e] with [e <= -52]
    and [m <= 2^(-e)]. *)
Lemma unit_interval_inv (c : number) :
  valid_binary prec emax c = true -> in_unit_interval c = true ->
  (exists s, c = S754_zero s) \/
  (exists m e, c = S754_finite false m e /\ e <= -52 /\ Zpos m <= 2 ^ (- e)).
Proof.
  intros Hvalid Hunit. unfold in_unit_interval in Hunit.
  apply andb_true_iff in Hunit. destruct Hunit as [Hlow Hhigh].
  destruct c as [s | s | | s m e].
  - left. now exists s.
  - destruct s; [discriminate Hlow | discriminate Hhigh].
  - discriminate Hlow.
  - right. destruct s; [discriminate Hlow |]. exists m, e. split; [reflexivity |].
    cbn [valid_binary] in Hvalid. unfold bounded, canonical_mantissa in Hvalid.
    apply andb_true_iff in Hvalid. destruct Hvalid as [Hcanon _].
    apply Z.eqb_eq in Hcanon. unfold fexp, emin, prec, emax in Hcanon.
    pose proof (digits2_pos_bounds m) as [_ Hdigits].
    
    unfold SFleb, SFcompare, one in Hhigh.
    
    destruct (Z.compare_spec e (-52)) as [-> | Hlt | Hgt].
    +  split; [lia |]. 
      (change (2 ^ (- (-52))) with (Zpos 4503599627370496)).
      (destruct (Pos.compare_cont Eq m 4503599627370496) eqn:Hc;
        [| | discriminate Hhigh]).
      * (apply (Pos.compare_eq m) in Hc). (rewrite Hc). apply Z.le_refl.
      * apply Z.lt_le_incl. (exact Hc).
    + split; [lia |].
      (assert (2 ^ Zpos (digits2_pos m) <= 2 ^ (- e)) by (apply Z.pow_le_mono_r; lia)).
      lia.
    + (discriminate Hhigh).
Qed.

(** The confidence, in [0, 1], times 100: zero or a finite positive
    number that is at most 101. *)
Lemma confidence_times_hundred (c : number) :
  valid_binary prec emax c = true -> in_unit_interval c = true ->
  (exists s, times c hundred = S754_zero s) \/
  (exists m e, times c hundred = S754_finite false m e /\
               e <= -46 /\ below 101 (Zpos m) e).
Proof.
  intros Hvalid Hunit.
  destruct (unit_interval_inv c Hvalid Hunit) as [[s ->] | (m & e & -> & He & Hm)].
  - left. now exists (xorb s false).
  - unfold times, hundred. cbn [SFmul xorb].
    destruct (binary_round_aux_below 100 (Zpos (m * 7036874417766400)) (e + -46))
      as [-> | Hfinite]; [lia | lia | | left; now exists false | right; exact Hfinite].
    unfold below. split; [lia |].
    rewrite Pos2Z.inj_mul.
    replace (- (e + -46)) with (- e + 46) by lia.
    rewrite Z.pow_add_r by lia.
    replace (100 * (2 ^ (- e) * 2 ^ 46)) with (2 ^ (- e) * (100 * 2 ^ 46)) by ring.
    change (100 * 2 ^ 46) with (Zpos 7036874417766400).
    apply Z.mul_le_mono_nonneg_r; [apply Pos2Z.is_nonneg | exact Hm].
Qed.

Lemma string_append_assoc (a b c : string) : (a +:+ b) +:+ c = a +:+ (b +:+ c).
Proof. induction a as [| x a IH]; [reflexivity |]. cbn. now rewrite IH. Qed.

Lemma string_of_uint_digits (u : Decimal.uint) :
  all_digits (NilEmpty.string_of_uint u) = true.
Proof. induction u; cbn [NilEmpty.string_of_uint all_digits]; auto. Qed.

Lemma decimal_digits (z : Z) : all_digits (decimal z) = true /\ decimal z <> "".
Proof.
  unfold decimal, NilZero.string_of_uint.
  destruct (N.to_uint (Z.to_N z)) as [| u | u | u | u | u | u | u | u | u | u] eqn:Hu;
    (split; [try reflexivity; rewrite <- Hu; apply string_of_uint_digits
            | discriminate]) || (split; [apply string_of_uint_digits | discriminate]).
Qed.

Lemma decimal_one_digit (r : Z) :
  0 <= r < 10 -> exists d, decimal r = String d "" /\ is_digit d = true.
Proof.
  intros Hr.
  assert (Hcases : r = 0 \/ r = 1 \/ r = 2 \/ r = 3 \/ r = 4 \/
                   r = 5 \/ r = 6 \/ r = 7 \/ r = 8 \/ r = 9) by lia.
  repeat (destruct Hcases as [-> | Hcases]); try subst r;
    eexists; split; reflexivity.
Qed.

(** A non-negative integer shown with one fraction digit. *)
Lemma fixed_digits_one (n : Z) : 0 <= n -> one_decimal_place (fixed_digits n 1).
Proof.
  intros Hn. unfold fixed_digits.
  change (10 ^ Z.of_nat 1) with 10.
  destruct (decimal_one_digit (n mod 10)) as (d & Hlow & Hd);
    [apply Z.mod_pos_bound; lia |].
  rewrite Hlow. cbn [String.length Nat.sub pad_zeros].
  destruct (decimal_digits (n / 10)) as [Hall Hne].
  exists (decimal (n / 10)), d. auto.
Qed.

Lemma nearest_scaled_nonneg (m : positive) (e scale : Z) :
  0 <= scale -> 0 <= nearest_scaled m e scale.
Proof.
  intros Hs. unfold nearest_scaled.
  destruct (0 <=? e) eqn:He.
  - apply Z.leb_le in He.
    assert (0 <= 2 ^ e) by (apply Z.pow_nonneg; lia). nia.
  - apply Z.leb_gt in He.
    assert (0 < 2 ^ (- e)) by (apply Z.pow_pos_nonneg; lia).
    apply Z.div_pos; nia.
Qed.

(** Zero, or a positive number that is at most 101, has a [toFixed(1)]
    of digits, a point and one digit. *)
Lemma toFixed_one_decimal Number_toString (x : number) :
  (exists s, x = S754_zero s) \/
  (exists m e, x = S754_finite false m e /\ e <= -46 /\ below 101 (Zpos m) e) ->
  one_decimal_place (toFixed Number_toString x 1).
Proof.
  intros [[s ->] | (m & e & -> & He & _ & Hm)]; cbn [toFixed].
  - now apply fixed_digits_one.
  - assert (Hsmall : at_least_1e21 m e = false).
    { unfold at_least_1e21.
      replace (0 <=? e) with false by (symmetry; apply Z.leb_gt; lia).
      apply Z.leb_gt.
      assert (Hpow : 0 < 2 ^ (- e)) by (apply Z.pow_pos_nonneg; lia).
      apply Z.le_lt_trans with (1 := Hm).
      apply Z.mul_lt_mono_pos_r; [exact Hpow | reflexivity]. }
    rewrite Hsmall. cbn [String.append].
    apply fixed_digits_one. apply nearest_scaled_nonneg.
    change (10 ^ Z.of_nat 1) with 10. lia.
Qed.

(** X20. For a confidence that is a binary64 value in [0, 1], the message
    shows the confidence times 100 as [toFixed(1)] gives it, digits, a
    point and exactly one digit, and a percent sign right after it. *)
Theorem getPredictionMessage_one_decimal Number_toString (result : PredictionResult) :
  valid_binary prec emax (confidence result) = true ->
  in_unit_interval (confidence result) = true ->
  let shown := toFixed Number_toString (times (confidence result) hundred) 1 in
  one_decimal_place shown /\
  contains (getPredictionMessage Number_toString result) (shown +:+ "%").
Proof.
  intros Hvalid Hunit shown. split.
  - apply toFixed_one_decimal. now apply confidence_times_hundred.
  - unfold getPredictionMessage. fold shown.
    destruct (prediction result).
    + exists ("✅ Nenhum sinal de catarata detectado" +:+ LF), " de confiança".
      now rewrite !string_append_assoc.
    + exists ("⚠️ Possível sinal de catarata detectado" +:+ LF +:+ "Confidência: "), "".
      now rewrite !string_append_assoc.
Qed.

Lemma getPredictionMessage_one_decimal_witness :
  one_decimal_place "87.1" /\
  contains (getPredictionMessage sample_Number_toString sample_result) ("87.1" +:+ "%").
Proof.
  apply (getPredictionMessage_one_decimal sample_Number_toString sample_result).
  - reflexivity.
  - reflexivity.
Defined.

(** X21. A confidence that is not a finite number is shown as it is named,
    without decimals: [NaN%], [Infinity%] or [-Infinity%]. *)
Theorem getPredictionMessage_not_finite Number_toString (result : PredictionResult) :
  (confidence result = S754_nan ->
   contains (getPredictionMessage Number_toString result) "NaN%") /\
  (confidence result = S754_infinity false ->
   contains (getPredictionMessage Number_toString result) "Infinity%") /\
  (confidence result = S754_infinity true ->
   contains (getPredictionMessage Number_toString result) "-Infinity%").
Proof.
  unfold getPredictionMessage.
  repeat split; intros ->; cbn [times SFmul hundred toFixed xorb];
    destruct (prediction result).
  - now exists ("✅ Nenhum sinal de catarata detectado" +:+ LF), " de confiança".
  - now exists ("⚠️ Possível sinal de catarata detectado" +:+ LF +:+ "Confidência: "), "".
  - now exists ("✅ Nenhum sinal de catarata detectado" +:+ LF), " de confiança".
  - now exists ("⚠️ Possível sinal de catarata detectado" +:+ LF +:+ "Confidência: "), "".
  - now exists ("✅ Nenhum sinal de catarata detectado" +:+ LF), " de confiança".
  - now exists ("⚠️ Possível sinal de catarata detectado" +:+ LF +:+ "Confidência: "), "".
Qed.

(** ** Where the errors of the retrying predictor come from *)




(** ** Encoder and request together *)

(** X24. What is posted is what the encoder produced: once the image is
    encoded, the next thing [predictFromBase64] does is one POST to
    [API_BASE_URL + "/predict-base64"], with a JSON content type and the
    encoded image as the [image] member of the body. *)
Theorem predictFromBase64_posts_encoded_image env imageUri h base64 t1 :
  imageUriToBase64 env imageUri h = (Returns (Some base64), t1) ->
  exists rest,
    snd (predictFromBase64 env imageUri h) =
      t1 ++
      EvFetch (API_BASE_URL env +:+ "/predict-base64")
        (Some {| method := "POST";
                 headers := [("Content-Type", "application/json")];
                 body := Some (JObject [("image", JString base64)]) |}) :: rest /\
    filter is_request rest = [].
Proof.
  intros Henc.
  destruct (fetch env (h ++ t1) (predict_url env) (Some (predict_request (Some base64))))
    as [response | e] eqn:Hfetch.
  - rewrite (predictFromBase64_answered _ _ _ _ _ _ Henc Hfetch).
    destruct (ok response); destruct (json response) as [v | e];
      try destruct (get_property v "detail"); cbn [snd];
      eexists; (split; [reflexivity | reflexivity]).
  - rewrite (predictFromBase64_request_fails _ _ _ _ _ _ Henc Hfetch). cbn [snd].
    eexists; split; reflexivity.
Qed.

Lemma predictFromBase64_posts_encoded_image_witness :
  exists rest,
    snd (predictFromBase64 browser picked_image []) =
      [EvFetch picked_image None] ++
      EvFetch (API_BASE_URL browser +:+ "/predict-base64")
        (Some {| method := "POST";
                 headers := [("Content-Type", "application/json")];
                 body := Some (JObject [("image", JString "iVBORw0KGgo=")]) |}) :: rest /\
    filter is_request rest = [].
Proof.
  apply (predictFromBase64_posts_encoded_image browser picked_image []
           "iVBORw0KGgo=" [EvFetch picked_image None]).
  reflexivity.
Defined.
